(** * Isekai API gateway: a shallow embedding of the request-lifecycle core

    The development follows the packages of the Go sources:
    - [middleware]     : the sliding-window rate limiter,
    - [cache]          : the bounded TTL cache,
    - [database]       : the route table and the access log,
    - [http], [response], [strconv] : what the handlers use of the
      standard library and of the JSON reply helpers,
    - [proxy]          : the forwarder and its headers,
    - [gobreaker], [circuitbreaker] : the breaker of one target and the
      per-target registry,
    - [handlers]       : the route CRUD handlers and the proxy handler,
    - [core]           : the engine's shutdown channel and its workers,
    - [scenario]       : the concrete routes, requests and backends the
      examples run on.

    Instants ([time.Time]) and durations are integers counting
    nanoseconds; Go's [int] and [int64] are integers of [Z]. *)

From Stdlib Require Import ZArith QArith Lia Ascii String.
From stdpp Require Import gmap strings list fin_maps.

Close Scope Q_scope.
Local Open Scope Z_scope.

(** ** Package [time] *)

Definition Millisecond : Z := 1000000.
Definition Second : Z := 1000 * Millisecond.
Definition Minute : Z := 60 * Second.

(** [t.After(u)] *)
Definition After (t u : Z) : bool := bool_decide (u < t).

(** [t.Before(u)] *)
Definition Before (t u : Z) : bool := bool_decide (t < u).

(** ** Results of fallible calls: Go's [(value, error)] pairs *)

Inductive result (E A : Type) : Type :=
  | Ok (a : A)
  | Err (e : E).
Arguments Ok {E A} a.
Arguments Err {E A} e.

(** Go's [int64] arithmetic wraps around. *)
Definition MaxInt64 : Z := 2 ^ 63 - 1.
Definition wrap64 (z : Z) : Z := (z + 2 ^ 63) mod 2 ^ 64 - 2 ^ 63.

(** ** Package [middleware]: the rate limiter *)

Module middleware.

(** The [requests] table maps a client address to the instants of its
    admitted requests. *)
Record RateLimiter := mkRateLimiter {
  requests : gmap string (list Z);
  limit : Z;
  window : Z
}.

Definition NewRateLimiter (requestsPerSecond : Z) : RateLimiter :=
  {| requests := ∅; limit := requestsPerSecond; window := Second |}.

Definition set_requests (rl : RateLimiter) (m : gmap string (list Z)) : RateLimiter :=
  {| requests := m; limit := limit rl; window := window rl |}.

(** The loop shared by [Allow] and [cleanup]: keep the instants after
    the cutoff. *)
Definition valid_after (cutoff : Z) (times : list Z) : list Z :=
  List.filter (fun t => After t cutoff) times.

(** [Allow] at the instant [now] read from the clock. *)
Definition Allow (now : Z) (clientIP : string) (rl : RateLimiter) : bool * RateLimiter :=
  let cutoff := now - window rl in
  match requests rl !! clientIP with
  | None => (true, set_requests rl (<[clientIP := [now]]> (requests rl)))
  | Some times =>
      let valid := valid_after cutoff times in
      if bool_decide (limit rl <= Z.of_nat (length valid))
      then (false, set_requests rl (<[clientIP := valid]> (requests rl)))
      else (true, set_requests rl (<[clientIP := valid ++ [now]]> (requests rl)))
  end.

(** One tick of the [cleanup] goroutine at the instant [now]. *)
Definition cleanup (now : Z) (rl : RateLimiter) : RateLimiter :=
  let cutoff := now - window rl in
  set_requests rl
    (omap (fun times =>
             match valid_after cutoff times with
             | [] => None
             | valid => Some valid
             end) (requests rl)).

(** What happens to a limiter: a client asks for admission, or the
    janitor ticks.  Every event carries the clock reading it sees. *)
Inductive Event :=
  | EvAllow (clientIP : string)
  | EvCleanup.

Definition step (rl : RateLimiter) (e : Z * Event) : option (string * bool) * RateLimiter :=
  match e with
  | (now, EvAllow c) => let '(ok, rl') := Allow now c rl in (Some (c, ok), rl')
  | (now, EvCleanup) => (None, cleanup now rl)
  end.

(** Runs the events in order and collects the admission decisions. *)
Fixpoint run (rl : RateLimiter) (evs : list (Z * Event)) : list (string * bool) * RateLimiter :=
  match evs with
  | [] => ([], rl)
  | e :: evs' =>
      let '(o, rl1) := step rl e in
      let '(os, rl2) := run rl1 evs' in
      (match o with Some d => d :: os | None => os end, rl2)
  end.





End middleware.

(** ** Package [cache] *)

Module cache.

Section WithValue.
Context {V : Type}.

Record Item := mkItem {
  Value : V;
  Expiration : Z
}.

Record Cache := mkCache {
  items : gmap string Item;
  defaultTTL : Z;
  maxSize : Z
}.

(** [New]: the cache starts with no entry. *)
Definition New (ttl maxsize : Z) : Cache :=
  {| items := ∅; defaultTTL := ttl; maxSize := maxsize |}.

Definition set_items (c : Cache) (m : gmap string Item) : Cache :=
  {| items := m; defaultTTL := defaultTTL c; maxSize := maxSize c |}.

(** The scan of [evictOldest] over the entries in the order [order] in
    which [range c.items] visits them; Go leaves that order unspecified.
    The pair is [(oldestKey, oldestTime)]. *)
Definition scan_step (acc : string * Z) (kv : string * Item) : string * Z :=
  if bool_decide (Expiration kv.2 < acc.2)
  then (kv.1, Expiration kv.2)
  else acc.

Definition scan_oldest (order : list (string * Item)) : string * Z :=
  fold_left scan_step order (""%string, MaxInt64).

Definition evictOldest (order : list (string * Item)) (c : Cache) : Cache :=
  let oldestKey := (scan_oldest order).1 in
  if bool_decide (oldestKey ≠ ""%string)
  then set_items c (delete oldestKey (items c))
  else c.

(** [SetWithTTL] at the clock reading [now]; [order] is the iteration
    order the eviction scan meets. *)
Definition SetWithTTL (now : Z) (order : list (string * Item))
    (key : string) (value : V) (ttl : Z) (c : Cache) : Cache :=
  let c1 :=
    if bool_decide (maxSize c <= Z.of_nat (size (items c)))
    then evictOldest order c
    else c in
  let expiration := wrap64 (now + ttl) in
  set_items c1 (<[key := {| Value := value; Expiration := expiration |}]> (items c1)).

Definition Set_ (now : Z) (order : list (string * Item))
    (key : string) (value : V) (c : Cache) : Cache :=
  SetWithTTL now order key value (defaultTTL c) c.

Definition Get (now : Z) (key : string) (c : Cache) : option V :=
  match items c !! key with
  | None => None
  | Some item =>
      if bool_decide (Expiration item < now) then None else Some (Value item)
  end.

Definition Delete (key : string) (c : Cache) : Cache :=
  set_items c (delete key (items c)).

Definition Clear (c : Cache) : Cache := set_items c ∅.

Definition Size (c : Cache) : Z := Z.of_nat (size (items c)).

Definition deleteExpired (now : Z) (c : Cache) : Cache :=
  set_items c (filter (fun kv => ¬ (Expiration kv.2 < now)) (items c)).

(** The operations a client of the cache can issue. *)
Inductive Op :=
  | OpSet (key : string) (value : V)
  | OpSetWithTTL (key : string) (value : V) (ttl : Z)
  | OpDelete (key : string)
  | OpClear.

(** An operation as it happens: the clock reading and, for the scan, a
    choice of iteration order among the orders of the current entries. *)
Definition apply (pick : gmap string Item → list (string * Item))
    (c : Cache) (e : Z * Op) : Cache :=
  match e.2 with
  | OpSet key value => Set_ e.1 (pick (items c)) key value c
  | OpSetWithTTL key value ttl => SetWithTTL e.1 (pick (items c)) key value ttl c
  | OpDelete key => Delete key c
  | OpClear => Clear c
  end.

Definition apply_all (pick : gmap string Item → list (string * Item))
    (c : Cache) (es : list (Z * Op)) : Cache :=
  fold_left (apply pick) es c.

(** [pick] is a legal iteration: it visits every entry exactly once. *)
Definition iteration (pick : gmap string Item → list (string * Item)) : Prop :=
  ∀ m, pick m ≡ₚ map_to_list m.

(** The entries the sentinels of the scan can tell from "nothing found":
    a key other than [""] and an expiration below [MaxInt64]. *)
Definition evictable (m : gmap string Item) : Prop :=
  ∀ k item, m !! k = Some item → k ≠ ""%string ∧ Expiration item < MaxInt64.

(** An operation that writes such an entry. *)
Definition writes_evictable (e : Z * Op) : Prop :=
  match e.2 with
  | OpSet key _ => key ≠ ""%string
  | OpSetWithTTL key _ ttl => key ≠ ""%string ∧ wrap64 (e.1 + ttl) < MaxInt64
  | _ => True
  end.

End WithValue.

Arguments Item : clear implicits.
Arguments Cache : clear implicits.
Arguments Op : clear implicits.

End cache.

(** ** Package [database] *)

Module database.

Record Route := mkRoute {
  ID : Z;
  Path : string;
  TargetURL : string;
  Method : string;
  Enabled : bool;
  RateLimit : Z;
  Timeout : Z;
  CreatedAt : Z;
  UpdatedAt : Z
}.

Record RequestLog := mkRequestLog {
  LogID : Z;
  RouteID : option Z;
  LogMethod : string;
  LogPath : string;
  StatusCode : Z;
  ResponseTime : Z;
  ClientIP : string;
  UserAgent : string;
  LogCreatedAt : Z
}.

(** Errors a query reports: the pool is unreachable, a parameter is
    refused before the statement runs, [Scan] found no row, or the
    statement violates a constraint of the schema. *)
Inductive error :=
  | ErrConn
  | ErrParam
  | ErrNoRows
  | ErrConstraint.

(** The encoding of the server decides which strings it takes as text
    and which characters they are made of; [None] stands for a string it
    refuses.  The server is not among the sources, so the encoding is a
    component of the store; [UTF8] is the one of a default installation. *)
Definition Encoding := string → option (list string).

Definition byte_in (lo hi : N) (c : ascii) : bool :=
  ((lo <=? N_of_ascii c) && (N_of_ascii c <=? hi))%N.

(** The second byte a lead byte of a longer sequence admits: no overlong
    form, no surrogate, nothing above U+10FFFF. *)
Definition second_ok (a b : ascii) : bool :=
  if (N_of_ascii a =? 224)%N then byte_in 160 191 b
  else if (N_of_ascii a =? 237)%N then byte_in 128 159 b
  else if (N_of_ascii a =? 240)%N then byte_in 144 191 b
  else if (N_of_ascii a =? 244)%N then byte_in 128 143 b
  else byte_in 128 191 b.

(** The characters of a string in UTF-8; a zero byte or an ill-formed
    sequence is refused. *)
Fixpoint UTF8 (s : string) : option (list string) :=
  match s with
  | EmptyString => Some []
  | String a s1 =>
      if byte_in 1 127 a then cons (String a EmptyString) <$> UTF8 s1
      else
        match s1 with
        | EmptyString => None
        | String b s2 =>
            if byte_in 194 223 a then
              if byte_in 128 191 b
              then cons (String a (String b EmptyString)) <$> UTF8 s2
              else None
            else
              match s2 with
              | EmptyString => None
              | String c s3 =>
                  if byte_in 224 239 a then
                    if second_ok a b && byte_in 128 191 c
                    then cons (String a (String b (String c EmptyString))) <$> UTF8 s3
                    else None
                  else
                    match s3 with
                    | EmptyString => None
                    | String d s4 =>
                        if byte_in 240 244 a && second_ok a b
                           && byte_in 128 191 c && byte_in 128 191 d
                        then cons (String a (String b (String c (String d EmptyString))))
                               <$> UTF8 s4
                        else None
                    end
              end
        end
  end.

(** The store behind [Pool]: the two tables of [InitSchema] with their
    [SERIAL] sequences, the encoding of the server, and whether the
    server can be reached. *)
Record Database := mkDatabase {
  up : bool;
  encoding : Encoding;
  routes : list Route;
  routes_id_seq : Z;
  request_logs : list RequestLog;
  request_logs_id_seq : Z
}.

Definition set_routes (db : Database) (rs : list Route) (seq : Z) : Database :=
  {| up := up db; encoding := encoding db; routes := rs; routes_id_seq := seq;
     request_logs := request_logs db; request_logs_id_seq := request_logs_id_seq db |}.

Definition set_logs (db : Database) (ls : list RequestLog) (seq : Z) : Database :=
  {| up := up db; encoding := encoding db; routes := routes db;
     routes_id_seq := routes_id_seq db;
     request_logs := ls; request_logs_id_seq := seq |}.

(** A string parameter is sent as text: the server takes it when its
    encoding does. *)
Definition text (db : Database) (s : string) : bool :=
  match encoding db s with
  | Some _ => true
  | None => false
  end.

(** A Go [int] sent for an [INTEGER] column or compared with one must
    fit 32 bits. *)
Definition int4 (z : Z) : bool := bool_decide (- 2 ^ 31 <= z <= 2 ^ 31 - 1).

(** Assignment to a [VARCHAR(n)] column: the value as it is stored.  A
    string of more than [n] characters is refused unless the characters
    in excess are all spaces, which are then cut off. *)
Definition varchar (db : Database) (n : nat) (s : string) : option string :=
  match encoding db s with
  | None => None
  | Some cs =>
      if bool_decide (length cs ≤ n)%nat then Some s
      else if forallb (String.eqb " ") (drop n cs)
           then Some (String.concat "" (take n cs))
           else None
  end.

(** [ORDER BY id] is the order of the list for rows inserted through
    [Create]. *)
Definition FindAll (db : Database) : result error (list Route) :=
  if up db then Ok (routes db) else Err ErrConn.

Definition FindByID (id : Z) (db : Database) : result error Route :=
  if up db then
    if int4 id then
      match List.find (fun r => bool_decide (ID r = id)) (routes db) with
      | Some r => Ok r
      | None => Err ErrNoRows
      end
    else Err ErrParam
  else Err ErrConn.

(** [WHERE path = $1 AND method = $2 AND enabled = true] *)
Definition FindByPath (path method : string) (db : Database) : result error Route :=
  if up db then
    if text db path && text db method then
      match List.find (fun r => bool_decide (Path r = path) && bool_decide (Method r = method)
                                && Enabled r) (routes db) with
      | Some r => Ok r
      | None => Err ErrNoRows
      end
    else Err ErrParam
  else Err ErrConn.

(** The parameters of an insert or update of a route, as the driver and
    the server take them before the statement runs. *)
Definition route_params_ok (db : Database) (r : Route) : bool :=
  text db (Path r) && text db (TargetURL r) && text db (Method r)
  && int4 (RateLimit r) && int4 (Timeout r).

(** [path ... UNIQUE] against the rows other than [id]. *)
Definition path_free (id : Z) (path : string) (rs : list Route) : bool :=
  forallb (fun r => bool_decide (ID r = id) || negb (bool_decide (Path r = path))) rs.

(** [Create]: on success the route comes back with its id and stamps,
    and the row holds the strings as the columns store them. *)
Definition Create (now : Z) (route : Route) (db : Database) : result error Route * Database :=
  if up db then
    if route_params_ok db route then
      let id := routes_id_seq db in
      if int4 id then
        match varchar db 255 (Path route), varchar db 500 (TargetURL route),
              varchar db 10 (Method route) with
        | Some path, Some target, Some method =>
            if forallb (fun r => negb (bool_decide (Path r = path))) (routes db)
            then
              let row := {| ID := id; Path := path; TargetURL := target;
                            Method := method; Enabled := Enabled route;
                            RateLimit := RateLimit route; Timeout := Timeout route;
                            CreatedAt := now; UpdatedAt := now |} in
              (Ok {| ID := id; Path := Path route; TargetURL := TargetURL route;
                     Method := Method route; Enabled := Enabled route;
                     RateLimit := RateLimit route; Timeout := Timeout route;
                     CreatedAt := now; UpdatedAt := now |},
               set_routes db (routes db ++ [row]) (id + 1))
            else (Err ErrConstraint, set_routes db (routes db) (id + 1))
        | _, _, _ => (Err ErrConstraint, set_routes db (routes db) (id + 1))
        end
      else (Err ErrConstraint, db)
    else (Err ErrParam, db)
  else (Err ErrConn, db).

(** [Update]: [WHERE id = $7 RETURNING updated_at]. *)
Definition Update (now : Z) (route : Route) (db : Database) : result error Route * Database :=
  if up db then
    if route_params_ok db route && int4 (ID route) then
      match List.find (fun r => bool_decide (ID r = ID route)) (routes db) with
      | None => (Err ErrNoRows, db)
      | Some old =>
          match varchar db 255 (Path route), varchar db 500 (TargetURL route),
                varchar db 10 (Method route) with
          | Some path, Some target, Some method =>
              if path_free (ID route) path (routes db)
              then
                let row := {| ID := ID route; Path := path; TargetURL := target;
                              Method := method; Enabled := Enabled route;
                              RateLimit := RateLimit route; Timeout := Timeout route;
                              CreatedAt := CreatedAt old; UpdatedAt := now |} in
                (Ok {| ID := ID route; Path := Path route; TargetURL := TargetURL route;
                       Method := Method route; Enabled := Enabled route;
                       RateLimit := RateLimit route; Timeout := Timeout route;
                       CreatedAt := CreatedAt route; UpdatedAt := now |},
                 set_routes db
                   (List.map (fun r => if bool_decide (ID r = ID route) then row else r)
                      (routes db))
                   (routes_id_seq db))
              else (Err ErrConstraint, db)
          | _, _, _ => (Err ErrConstraint, db)
          end
      end
    else (Err ErrParam, db)
  else (Err ErrConn, db).

(** [ON DELETE SET NULL] on [request_logs.route_id]. *)
Definition set_null (id : Z) (l : RequestLog) : RequestLog :=
  {| LogID := LogID l;
     RouteID := if bool_decide (RouteID l = Some id) then None else RouteID l;
     LogMethod := LogMethod l; LogPath := LogPath l; StatusCode := StatusCode l;
     ResponseTime := ResponseTime l; ClientIP := ClientIP l; UserAgent := UserAgent l;
     LogCreatedAt := LogCreatedAt l |}.

(** [Delete]: [Exec] reports no error when no row is affected. *)
Definition Delete (id : Z) (db : Database) : result error unit * Database :=
  if up db then
    if int4 id then
      (Ok tt,
       {| up := up db; encoding := encoding db;
          routes := List.filter (fun r => negb (bool_decide (ID r = id))) (routes db);
          routes_id_seq := routes_id_seq db;
          request_logs := List.map (set_null id) (request_logs db);
          request_logs_id_seq := request_logs_id_seq db |})
    else (Err ErrParam, db)
  else (Err ErrConn, db).

(** The parameters of an insert into [request_logs]. *)
Definition log_params_ok (db : Database) (l : RequestLog) : bool :=
  match RouteID l with None => true | Some id => int4 id end
  && text db (LogMethod l) && text db (LogPath l)
  && int4 (StatusCode l) && int4 (ResponseTime l)
  && text db (ClientIP l) && text db (UserAgent l).

(** The foreign key of [request_logs.route_id]. *)
Definition route_exists (routeID : option Z) (db : Database) : bool :=
  match routeID with
  | None => true
  | Some id => existsb (fun r => bool_decide (ID r = id)) (routes db)
  end.

(** [RequestLogRepository.Create] *)
Definition CreateLog (now : Z) (l : RequestLog) (db : Database) : result error RequestLog * Database :=
  if up db then
    if log_params_ok db l then
      let id := request_logs_id_seq db in
      if int4 id then
        match varchar db 10 (LogMethod l), varchar db 255 (LogPath l),
              varchar db 45 (ClientIP l) with
        | Some method, Some path, Some ip =>
            if route_exists (RouteID l) db then
              let row := {| LogID := id; RouteID := RouteID l; LogMethod := method;
                            LogPath := path; StatusCode := StatusCode l;
                            ResponseTime := ResponseTime l; ClientIP := ip;
                            UserAgent := UserAgent l; LogCreatedAt := now |} in
              (Ok {| LogID := id; RouteID := RouteID l; LogMethod := LogMethod l;
                     LogPath := LogPath l; StatusCode := StatusCode l;
                     ResponseTime := ResponseTime l; ClientIP := ClientIP l;
                     UserAgent := UserAgent l; LogCreatedAt := now |},
               set_logs db (request_logs db ++ [row]) (id + 1))
            else (Err ErrConstraint, set_logs db (request_logs db) (id + 1))
        | _, _, _ => (Err ErrConstraint, set_logs db (request_logs db) (id + 1))
        end
      else (Err ErrConstraint, db)
    else (Err ErrParam, db)
  else (Err ErrConn, db).

End database.

(** ** Package [net/http]: headers, requests and the response writer *)

Module http.

Definition StatusOK : Z := 200.
Definition StatusCreated : Z := 201.
Definition StatusBadRequest : Z := 400.
Definition StatusNotFound : Z := 404.
Definition StatusTooManyRequests : Z := 429.
Definition StatusInternalServerError : Z := 500.
Definition StatusServiceUnavailable : Z := 503.

(** [http.Header] is a [map[string][]string]. *)
Abbreviation Header := (gmap string (list string)).

Definition in_range (lo hi : N) (c : ascii) : bool :=
  ((lo <=? N_of_ascii c) && (N_of_ascii c <=? hi))%N.

Definition is_lower (c : ascii) : bool := in_range 97 122 c.
Definition is_upper (c : ascii) : bool := in_range 65 90 c.
Definition is_digit (c : ascii) : bool := in_range 48 57 c.

Fixpoint mem_ascii (c : ascii) (s : string) : bool :=
  match s with
  | EmptyString => false
  | String d s' => bool_decide (c = d) || mem_ascii c s'
  end.

(** The token characters of a header field name. *)
Definition validHeaderFieldByte (c : ascii) : bool :=
  is_lower c || is_upper c || is_digit c || mem_ascii c "!#$%&'*+-.^_`|~".

Fixpoint all_valid (s : string) : bool :=
  match s with
  | EmptyString => true
  | String c s' => validHeaderFieldByte c && all_valid s'
  end.

Definition toLower : N := 32.

(** Upper case for the first letter and after each dash, lower case
    elsewhere. *)
Fixpoint canonicalize (upper : bool) (s : string) : string :=
  match s with
  | EmptyString => EmptyString
  | String c s' =>
      let c' :=
        if upper && is_lower c then ascii_of_N (N_of_ascii c - toLower)
        else if negb upper && is_upper c then ascii_of_N (N_of_ascii c + toLower)
        else c in
      String c' (canonicalize (bool_decide (c' = "-"%char)) s')
  end.

(** A key with a byte outside the token characters is left as it is. *)
Definition CanonicalMIMEHeaderKey (s : string) : string :=
  if all_valid s then canonicalize true s else s.

(** [h.Set(key, value)] *)
Definition Set_ (key value : string) (h : Header) : Header :=
  <[CanonicalMIMEHeaderKey key := [value]]> h.

(** [h.Add(key, value)] *)
Definition Add (key value : string) (h : Header) : Header :=
  <[CanonicalMIMEHeaderKey key := default [] (h !! CanonicalMIMEHeaderKey key) ++ [value]]> h.

(** [h.Get(key)] *)
Definition Get (key : string) (h : Header) : string :=
  match h !! CanonicalMIMEHeaderKey key with
  | Some (v :: _) => v
  | _ => ""%string
  end.

(** The fields of [http.Request] the gateway reads; [TLS] tells whether
    [r.TLS] is non-nil. *)
Record Request := mkRequest {
  Method : string;
  URLPath : string;
  ReqHeader : Header;
  Body : string;
  RemoteAddr : string;
  Host : string;
  TLS : bool
}.

Definition UserAgent (r : Request) : string := Get "User-Agent" (ReqHeader r).

(** The response of a backend as [client.Do] hands it over: the status
    code read from the status line, the header, and the body; [BodyErr]
    tells that the body stream breaks after [RespBody]. *)
Record Response := mkResponse {
  RespStatus : Z;
  RespHeader : Header;
  RespBody : string;
  BodyErr : bool
}.

(** What has been written to the client.  The status line goes out with
    the first [WriteHeader] (or the first [Write]); later calls of
    [WriteHeader] change nothing, and neither do later changes of the
    header map. *)
Record ResponseWriter (B : Type) := mkResponseWriter {
  header : Header;
  wrote : option (Z * Header);
  body : list B
}.
Arguments header {B} _.
Arguments wrote {B} _.
Arguments body {B} _.
Arguments mkResponseWriter {B} _ _ _.

Definition NewRecorder {B} : ResponseWriter B :=
  {| header := ∅; wrote := None; body := [] |}.

Definition SetHeader {B} (key value : string) (w : ResponseWriter B) : ResponseWriter B :=
  {| header := Set_ key value (header w); wrote := wrote w; body := body w |}.

Definition AddHeader {B} (key value : string) (w : ResponseWriter B) : ResponseWriter B :=
  {| header := Add key value (header w); wrote := wrote w; body := body w |}.

Definition WriteHeader {B} (code : Z) (w : ResponseWriter B) : ResponseWriter B :=
  match wrote w with
  | Some _ => w
  | None => {| header := header w; wrote := Some (code, header w); body := body w |}
  end.

(** [checkWriteHeaderCode]: the server panics on a code outside
    100..999. *)
Definition checkWriteHeaderCode (code : Z) : bool := bool_decide (100 <= code <= 999).

(** A 1xx code other than 101 goes out as an informational response and
    leaves the status line to come. *)
Definition informational (code : Z) : bool :=
  bool_decide (100 <= code <= 199) && negb (bool_decide (code = 101)).

(** [w.WriteHeader(code)] for a code that is not a constant of the
    gateway.  Once the status line is out the call changes nothing;
    before that, [None] stands for the panic on a code the server
    refuses. *)
Definition WriteHeaderCode {B} (code : Z) (w : ResponseWriter B) : option (ResponseWriter B) :=
  match wrote w with
  | Some _ => Some w
  | None =>
      if checkWriteHeaderCode code
      then Some (if informational code then w else WriteHeader code w)
      else None
  end.

Definition Write {B} (b : B) (w : ResponseWriter B) : ResponseWriter B :=
  let w1 := WriteHeader StatusOK w in
  {| header := header w1; wrote := wrote w1; body := body w1 ++ [b] |}.

(** The status the client has received, if any. *)
Definition status {B} (w : ResponseWriter B) : option Z := fst <$> wrote w.

End http.

(** ** Package [response] *)

Module response.

(** The [Data] payloads the handlers send. *)
Inductive Data :=
  | Nil
  | OfRoute (r : database.Route)
  | OfRoutes (rs : list database.Route).

Record Response := mkResponse {
  Success_ : bool;
  Message : string;
  Data_ : Data;
  Error_ : string
}.

(** What reaches the client's body: an encoded [Response], or bytes
    copied from a backend. *)
Inductive Chunk :=
  | Encoded (r : Response)
  | Bytes (s : string).

Abbreviation Writer := (http.ResponseWriter Chunk).

Definition JSON (statusCode : Z) (data : Response) (w : Writer) : Writer :=
  http.Write (Encoded data)
    (http.WriteHeader statusCode
       (http.SetHeader "Content-Type" "application/json" w)).

Definition Success (message : string) (data : Data) (w : Writer) : Writer :=
  JSON http.StatusOK
    {| Success_ := true; Message := message; Data_ := data; Error_ := "" |} w.

Definition Error (statusCode : Z) (message : string) (w : Writer) : Writer :=
  JSON statusCode
    {| Success_ := false; Message := ""; Data_ := Nil; Error_ := message |} w.

Definition BadRequest := Error http.StatusBadRequest.
Definition NotFound := Error http.StatusNotFound.
Definition InternalServerError := Error http.StatusInternalServerError.
Definition ServiceUnavailable := Error http.StatusServiceUnavailable.

End response.

(** ** Package [proxy]: the forwarder *)

Module proxy.

Import http.

(** What a propagator does to the carrier it is given: the fields it
    sets, in order.  [HeaderCarrier.Set] is [http.Header.Set]. *)
Definition TextMapPropagator := Header → list (string * string).

Definition Inject (p : TextMapPropagator) (h : Header) : Header :=
  fold_left (fun h' kv => Set_ kv.1 kv.2 h') (p h) h.

(** [otel.GetTextMapPropagator()].  No package of the gateway registers
    a propagator, so the global one is the default, which sets no field. *)
Definition GetTextMapPropagator : TextMapPropagator := fun _ => [].

(** The request handed to [client.Do]. *)
Record Outbound := mkOutbound {
  OutMethod : string;
  OutURL : string;
  OutHeader : Header;
  OutBody : string
}.

(** The world outside the forwarder: whether [http.NewRequestWithContext]
    accepts a method and a target, and what [client.Do] answers ([None]
    for a transport error, a timeout or too many redirects). *)
Record Transport := mkTransport {
  NewRequest_ok : string → string → bool;
  Do : Outbound → option Response
}.

Inductive error :=
  | ErrCreateRequest
  | ErrForward
  | ErrCopyBody.

(** The header of the outbound request: a clone of the inbound one, the
    injected trace fields, then the three [X-Forwarded-*] fields. *)
Definition forwarded_header (p : TextMapPropagator) (r : Request) : Header :=
  let h := ReqHeader r in
  let h := Inject p h in
  let h := Set_ "X-Forwarded-For" (RemoteAddr r) h in
  let h := Set_ "X-Forwarded-Proto" "http" h in
  let h := if TLS r then Set_ "X-Forwarded-Proto" "https" h else h in
  Set_ "X-Forwarded-Host" (Host r) h.

Definition outbound (targetURL : string) (r : Request) : Outbound :=
  {| OutMethod := Method r; OutURL := targetURL;
     OutHeader := forwarded_header GetTextMapPropagator r;
     OutBody := Body r |}.

Definition Forward (net : Transport) (targetURL : string) (r : Request) : result error Response :=
  if NewRequest_ok net (Method r) targetURL then
    match Do net (outbound targetURL r) with
    | Some resp => Ok resp
    | None => Err ErrForward
    end
  else Err ErrCreateRequest.

(** How [CopyResponse] ends: it returns, with an error or without, or
    [w.WriteHeader] panics on the status code of the backend. *)
Inductive outcome :=
  | Returns (err : option error)
  | Panics (code : Z).

(** [CopyResponse]: the headers, the status, then the body. *)
Definition CopyResponse (w : response.Writer) (resp : Response) : outcome * response.Writer :=
  let w :=
    fold_left
      (fun w' (kv : string * list string) =>
         fold_left (fun w'' value => AddHeader kv.1 value w'') kv.2 w')
      (map_to_list (RespHeader resp)) w in
  match WriteHeaderCode (RespStatus resp) w with
  | None => (Panics (RespStatus resp), w)
  | Some w =>
      let w := if bool_decide (RespBody resp = ""%string) then w
               else Write (response.Bytes (RespBody resp)) w in
      (Returns (if BodyErr resp then Some ErrCopyBody else None), w)
  end.

Definition ForwardAndCopy (net : Transport) (w : response.Writer) (r : Request)
    (targetURL : string) : outcome * response.Writer :=
  match Forward net targetURL r with
  | Err e => (Returns (Some e), w)
  | Ok resp => CopyResponse w resp
  end.

End proxy.

(** ** Package [gobreaker]: the breaker of one target *)

Module gobreaker.

(** Modelled from the spec: the states of a breaker (the library
    [github.com/sony/gobreaker] is not among the sources). *)
Inductive State :=
  | StateClosed
  | StateHalfOpen
  | StateOpen.

(** Modelled from the spec: the rolling counts of the current interval;
    the field names are those the gateway's [ReadyToTrip] reads. *)
Record Counts := mkCounts {
  Requests : Z;
  TotalFailures : Z;
  ConsecutiveSuccesses : Z
}.

(** Modelled from the spec: the settings the gateway passes to the
    library. *)
Record Settings := mkSettings {
  Name : string;
  MaxRequests : Z;
  Interval : Z;
  Timeout : Z;
  ReadyToTrip : Counts → bool
}.

(** Modelled from the spec: a breaker is its state, its counts and the
    instant at which the interval (Closed) or the rest (Open) ends. *)
Record CircuitBreaker := mkCircuitBreaker {
  settings : Settings;
  state : State;
  counts : Counts;
  expiry : Z
}.

(** Modelled from the spec: the errors of a breaker that lets no call
    through. *)
Inductive error :=
  | ErrOpenState
  | ErrTooManyRequests.

Definition zero : Counts :=
  {| Requests := 0; TotalFailures := 0; ConsecutiveSuccesses := 0 |}.

(** Modelled from the spec: entering a state resets the counters; a
    Closed breaker starts an interval, an Open one its rest. *)
Definition setState (st : State) (now : Z) (cb : CircuitBreaker) : CircuitBreaker :=
  {| settings := settings cb; state := st; counts := zero;
     expiry := match st with
               | StateClosed => now + Interval (settings cb)
               | StateOpen => now + Timeout (settings cb)
               | StateHalfOpen => 0
               end |}.

(** Modelled from the spec: breakers are created Closed. *)
Definition NewCircuitBreaker (st : Settings) (now : Z) : CircuitBreaker :=
  {| settings := st; state := StateClosed; counts := zero;
     expiry := now + Interval st |}.

(** Modelled from the spec: what the clock alone changes.  A Closed
    breaker whose interval is over starts a new one; an Open breaker
    becomes HalfOpen once [Timeout] has gone by since it opened. *)
Definition currentState (now : Z) (cb : CircuitBreaker) : CircuitBreaker :=
  match state cb with
  | StateClosed => if Before (expiry cb) now then setState StateClosed now cb else cb
  | StateOpen => if Before (expiry cb) now then setState StateHalfOpen now cb else cb
  | StateHalfOpen => cb
  end.

(** Modelled from the spec: counting one finished call. *)
Definition record (success : bool) (c : Counts) : Counts :=
  {| Requests := Requests c + 1;
     TotalFailures := if success then TotalFailures c else TotalFailures c + 1;
     ConsecutiveSuccesses := if success then ConsecutiveSuccesses c + 1 else 0 |}.

Definition set_counts (c : Counts) (cb : CircuitBreaker) : CircuitBreaker :=
  {| settings := settings cb; state := state cb; counts := c; expiry := expiry cb |}.

(** Modelled from the spec: the transition taken when a call that went
    through has finished.  Closed: open when the counts of the interval
    are ready to trip.  HalfOpen: one failure opens again, [MaxRequests]
    successes in a row close. *)
Definition afterRequest (now : Z) (success : bool) (cb : CircuitBreaker) : CircuitBreaker :=
  let c := record success (counts cb) in
  match state cb with
  | StateClosed =>
      if ReadyToTrip (settings cb) c then setState StateOpen now cb else set_counts c cb
  | StateHalfOpen =>
      if success then
        if bool_decide (MaxRequests (settings cb) <= ConsecutiveSuccesses c)
        then setState StateClosed now cb
        else set_counts c cb
      else setState StateOpen now cb
  | StateOpen => cb
  end.

Definition is_ok {E A} (r : result E A) : bool :=
  match r with Ok _ => true | Err _ => false end.

(** Modelled from the spec: [Execute].  The protected function [req]
    acts on a world [W]; an Open breaker answers at once and leaves the
    world alone.  Calls are taken one at a time, so a HalfOpen breaker
    always has room for the probe. *)
Definition Execute {W E A} (now : Z) (req : W → result E A * W)
    (cb : CircuitBreaker) (w : W) : result (error + E) A * CircuitBreaker * W :=
  let cb := currentState now cb in
  match state cb with
  | StateOpen => (Err (inl ErrOpenState), cb, w)
  | _ =>
      let '(r, w') := req w in
      (match r with Ok a => Ok a | Err e => Err (inr e) end,
       afterRequest now (is_ok r) cb, w')
  end.

End gobreaker.

(** ** Package [circuitbreaker]: the registry of breakers *)

Module circuitbreaker.

(** [ReadyToTrip] of [New].  The [float64] quotient is taken as the
    exact rational and the constant as 6/10. *)
Definition ReadyToTrip (counts : gobreaker.Counts) : bool :=
  let failureRatio :=
    (inject_Z (gobreaker.TotalFailures counts) / inject_Z (gobreaker.Requests counts))%Q in
  bool_decide (3 <= gobreaker.Requests counts) && Qle_bool (6 # 10) failureRatio.

Record CircuitBreaker := mkCircuitBreaker {
  breakers : gmap string gobreaker.CircuitBreaker;
  settings : gobreaker.Settings
}.

Definition New : CircuitBreaker :=
  {| breakers := ∅;
     settings := {| gobreaker.Name := "DefaultCircuitBreaker";
                    gobreaker.MaxRequests := 3;
                    gobreaker.Interval := Second * 10;
                    gobreaker.Timeout := Second * 60;
                    gobreaker.ReadyToTrip := ReadyToTrip |} |}.

(** [GetBreaker]: the breaker of [target], created on first use. *)
Definition GetBreaker (now : Z) (target : string) (cb : CircuitBreaker)
    : gobreaker.CircuitBreaker * CircuitBreaker :=
  match breakers cb !! target with
  | Some breaker => (breaker, cb)
  | None =>
      let st := {| gobreaker.Name := target;
                   gobreaker.MaxRequests := gobreaker.MaxRequests (settings cb);
                   gobreaker.Interval := gobreaker.Interval (settings cb);
                   gobreaker.Timeout := gobreaker.Timeout (settings cb);
                   gobreaker.ReadyToTrip := gobreaker.ReadyToTrip (settings cb) |} in
      let breaker := gobreaker.NewCircuitBreaker st now in
      (breaker, {| breakers := <[target := breaker]> (breakers cb); settings := settings cb |})
  end.

(** The error of [Execute]: the breaker's or the function's, wrapped
    with the target. *)
Inductive error (E : Type) :=
  | Wrapped (target : string) (e : gobreaker.error + E).
Arguments Wrapped {E} target e.

Definition Execute {W E A} (now : Z) (target : string) (fn : W → result E A * W)
    (cb : CircuitBreaker) (w : W) : result (error E) A * CircuitBreaker * W :=
  let '(breaker, cb) := GetBreaker now target cb in
  let '(r, breaker', w') := gobreaker.Execute now fn breaker w in
  let cb' := {| breakers := <[target := breaker']> (breakers cb); settings := settings cb |} in
  match r with
  | Err e => (Err (Wrapped target e), cb', w')
  | Ok a => (Ok a, cb', w')
  end.

(** [GetState]: the state of the breaker as the clock reading [now]
    shows it; a target without a breaker counts as Closed. *)
Definition GetState (now : Z) (target : string) (cb : CircuitBreaker) : gobreaker.State :=
  match breakers cb !! target with
  | None => gobreaker.StateClosed
  | Some breaker => gobreaker.state (gobreaker.currentState now breaker)
  end.

(** What [New] and [GetBreaker] establish for every breaker of the
    registry, and what every call keeps: the settings of [New], and no
    Closed breaker whose counts are ready to trip. *)
Definition breaker_ok (b : gobreaker.CircuitBreaker) : Prop :=
  gobreaker.ReadyToTrip (gobreaker.settings b) = ReadyToTrip
  ∧ gobreaker.Timeout (gobreaker.settings b) = Second * 60
  ∧ gobreaker.Interval (gobreaker.settings b) = Second * 10
  ∧ gobreaker.MaxRequests (gobreaker.settings b) = 3
  ∧ (gobreaker.state b = gobreaker.StateClosed → ReadyToTrip (gobreaker.counts b) = false).

Definition registry_ok (cb : CircuitBreaker) : Prop :=
  settings cb = settings New
  ∧ ∀ target b, breakers cb !! target = Some b → breaker_ok b.

(** The breaker of [target] as a call at [now] finds it: looked up or
    created, then moved by the clock. *)
Definition current (now : Z) (target : string) (cb : CircuitBreaker) : gobreaker.CircuitBreaker :=
  gobreaker.currentState now (GetBreaker now target cb).1.

(** The registries a running gateway can hold: [New], then any calls of
    [Execute], each with its own clock reading, target and function. *)
Inductive reachable {W E A : Type} : CircuitBreaker → Prop :=
  | reachable_New : reachable New
  | reachable_Execute now target (fn : W → result E A * W) cb w :
      reachable cb → reachable (Execute now target fn cb w).1.2.

(** A backend that fails every call and counts how often it is called. *)
Definition failing (calls : nat) : result unit unit * nat := (Err tt, S calls).

End circuitbreaker.

(** ** Package [strconv] *)

Module strconv.

Fixpoint digits (n : Z) (s : string) : option Z :=
  match s with
  | EmptyString => Some n
  | String ch s' =>
      if http.is_digit ch
      then digits (n * 10 + (Z.of_N (N_of_ascii ch) - 48)) s'
      else None
  end.

(** [Atoi]: an optional sign, then at least one decimal digit, and a
    value that fits Go's 64-bit [int]. *)
Definition Atoi (s : string) : option Z :=
  let '(neg, ds) :=
    match s with
    | String "-" s' => (true, s')
    | String "+" s' => (false, s')
    | _ => (false, s)
    end in
  match ds with
  | EmptyString => None
  | _ =>
      match digits 0 ds with
      | Some n =>
          let v := if neg : bool then - n else n in
          if bool_decide (- 2 ^ 63 <= v <= MaxInt64) then Some v else None
      | None => None
      end
  end.

End strconv.

(** ** Package [handlers] *)

Module handlers.

Import database.

(** The values the handlers keep in the cache. *)
Inductive CacheValue :=
  | Routes (rs : list Route)
  | OneRoute (r : Route).

(** *** [RouteHandler]: the administrative write endpoints

    A handler call gets the writer [w], the id segment of the URL
    ([chi.URLParam(r, "id")]) and the body as [json.Decode] reads it
    ([None] when it does not decode). *)
Module RouteHandler.

Record t := mk {
  repo : Database;
  cache : cache.Cache CacheValue
}.

Definition with_id (id : Z) (r : Route) : Route :=
  {| ID := id; Path := Path r; TargetURL := TargetURL r; Method := Method r;
     Enabled := Enabled r; RateLimit := RateLimit r; Timeout := Timeout r;
     CreatedAt := CreatedAt r; UpdatedAt := UpdatedAt r |}.

Definition Create (now : Z) (w : response.Writer) (body : option Route) (h : t)
    : response.Writer * t :=
  match body with
  | None => (response.BadRequest "Invalid request body" w, h)
  | Some route =>
      if bool_decide (Path route = ""%string) || bool_decide (TargetURL route = ""%string)
      then (response.BadRequest "Path and target URL are required" w, h)
      else
        match database.Create now route (repo h) with
        | (Err _, db) =>
            (response.InternalServerError "Failed to create route" w,
             {| repo := db; cache := cache h |})
        | (Ok route, db) =>
            let c := cache.Delete "routes:all" (cache h) in
            (response.JSON http.StatusCreated
               {| response.Success_ := true;
                  response.Message := "Route created successfully";
                  response.Data_ := response.OfRoute route;
                  response.Error_ := "" |} w,
             {| repo := db; cache := c |})
        end
  end.

Definition Update (now : Z) (w : response.Writer) (idStr : string) (body : option Route) (h : t)
    : response.Writer * t :=
  match strconv.Atoi idStr with
  | None => (response.BadRequest "Invalid route ID" w, h)
  | Some id =>
      match body with
      | None => (response.BadRequest "Invalid request body" w, h)
      | Some route =>
          let route := with_id id route in
          if bool_decide (Path route = ""%string) || bool_decide (TargetURL route = ""%string)
          then (response.BadRequest "Path and target URL are required" w, h)
          else
            match database.Update now route (repo h) with
            | (Err _, db) =>
                (response.InternalServerError "Failed to update route" w,
                 {| repo := db; cache := cache h |})
            | (Ok route, db) =>
                let c := cache.Delete "routes:all" (cache h) in
                let c := cache.Delete ("route:" ++ idStr) c in
                (response.Success "Route updated successfully" (response.OfRoute route) w,
                 {| repo := db; cache := c |})
            end
      end
  end.

Definition Delete (w : response.Writer) (idStr : string) (h : t) : response.Writer * t :=
  match strconv.Atoi idStr with
  | None => (response.BadRequest "Invalid route ID" w, h)
  | Some id =>
      match database.Delete id (repo h) with
      | (Err _, db) =>
          (response.InternalServerError "Failed to delete route" w,
           {| repo := db; cache := cache h |})
      | (Ok _, db) =>
          let c := cache.Delete "routes:all" (cache h) in
          let c := cache.Delete ("route:" ++ idStr) c in
          (response.Success "Route deleted successfully" response.Nil w,
           {| repo := db; cache := c |})
      end
  end.

(** What a cached value is when it is sent as [Data]. *)
Definition of_cached (v : CacheValue) : response.Data :=
  match v with
  | Routes rs => response.OfRoutes rs
  | OneRoute r => response.OfRoute r
  end.

(** [Get]: the clock reads [now] in [cache.Get] and [now'] in
    [cache.SetWithTTL], whose eviction scan meets the entries in the
    order [order]. *)
Definition Get (now now' : Z) (order : list (string * cache.Item CacheValue))
    (w : response.Writer) (idStr : string) (h : t) : response.Writer * t :=
  match strconv.Atoi idStr with
  | None => (response.BadRequest "Invalid route ID" w, h)
  | Some id =>
      let cacheKey := ("route:" ++ idStr)%string in
      match cache.Get now cacheKey (cache h) with
      | Some cached =>
          (response.Success "Route retrieved from cache" (of_cached cached) w, h)
      | None =>
          match database.FindByID id (repo h) with
          | Err _ => (response.NotFound "Route not found" w, h)
          | Ok route =>
              (response.Success "Route retrieved" (response.OfRoute route) w,
               {| repo := repo h;
                  cache := cache.SetWithTTL now' order cacheKey (OneRoute route) (2 * Minute)
                             (cache h) |})
          end
      end
  end.

(** The requests the administrative endpoints serve. *)
Inductive Request :=
  | GET (idStr : string)
  | POST (body : option Route)
  | PUT (idStr : string) (body : option Route)
  | DELETE (idStr : string).

(** One request, at the clock reading [now]. *)
Definition serve (now : Z) (order : list (string * cache.Item CacheValue))
    (w : response.Writer) (req : Request) (h : t) : response.Writer * t :=
  match req with
  | GET idStr => Get now now order w idStr h
  | POST body => Create now w body h
  | PUT idStr body => Update now w idStr body h
  | DELETE idStr => Delete w idStr h
  end.

(** The ids in use lie below the sequence: those of the rows, and those
    the cache keys [route:<s>] denote. *)
Definition ids_below_seq (h : t) : Prop :=
  (∀ r, r ∈ routes (repo h) → ID r < routes_id_seq (repo h))
  ∧ ∀ s item id,
      cache.items (cache h) !! ("route:" ++ s)%string = Some item →
      strconv.Atoi s = Some id → id < routes_id_seq (repo h).

End RouteHandler.

(** *** [ProxyHandler]: the request lifecycle *)
Module ProxyHandler.

Record t := mk {
  repo : Database;
  cache : cache.Cache CacheValue;
  cb : circuitbreaker.CircuitBreaker
}.

(** The entry the goroutine of [logRequest] builds. *)
Definition logEntry (routeID : option Z) (method path : string) (statusCode : Z)
    (duration : Z) (r : http.Request) : RequestLog :=
  {| LogID := 0; RouteID := routeID; LogMethod := method; LogPath := path;
     StatusCode := statusCode; ResponseTime := Z.quot duration Millisecond;
     ClientIP := http.RemoteAddr r; UserAgent := http.UserAgent r; LogCreatedAt := 0 |}.

(** The body of that goroutine, run at some later instant against the
    store as it then is: an error of the insert is only reported to the
    logger. *)
Definition logRequest_run (now : Z) (entry : RequestLog) (db : Database) : Database :=
  (database.CreateLog now entry db).2.

(** How the protected call fails: [ForwardAndCopy] returns an error, or
    it panics. *)
Inductive failure :=
  | Failed (e : proxy.error)
  | Panic (code : Z).

(** How [Handle] ends.  It returns, with the writer, the handler and the
    log entries whose goroutines it has started; or the panic of the
    forwarder unwinds it, before [logRequest] is reached, and the writer
    is all that is known afterwards. *)
Inductive Outcome :=
  | Returned (w : response.Writer) (h : t) (logs : list RequestLog)
  | Panicked (w : response.Writer) (code : Z).

(** [Handle] at the clock reading [now], where [duration] is what
    [time.Since(startTime)] gives. *)
Definition Handle (net : proxy.Transport) (now duration : Z)
    (w : response.Writer) (r : http.Request) (h : t) : Outcome :=
  match database.FindByPath (http.URLPath r) (http.Method r) (repo h) with
  | Err _ =>
      Returned (response.NotFound "Route not found" w) h
        [logEntry None (http.Method r) (http.URLPath r) http.StatusNotFound duration r]
  | Ok route =>
      if negb (Enabled route) then
        Returned (response.ServiceUnavailable "Route is disabled" w) h
          [logEntry (Some (ID route)) (http.Method r) (http.URLPath r)
             http.StatusServiceUnavailable duration r]
      else
        let fn := fun w0 =>
          match proxy.ForwardAndCopy net w0 r (TargetURL route) with
          | (proxy.Returns None, w1) => (Ok tt, w1)
          | (proxy.Returns (Some e), w1) => (Err (Failed e), w1)
          | (proxy.Panics code, w1) => (Err (Panic code), w1)
          end in
        let '(result, cb', w') :=
          circuitbreaker.Execute now (TargetURL route) fn (cb h) w in
        let h' := {| repo := repo h; cache := cache h; cb := cb' |} in
        match result with
        | Err (circuitbreaker.Wrapped _ (inr (Panic code))) => Panicked w' code
        | Err _ =>
            Returned (response.ServiceUnavailable "Service temporarily unavailable" w') h'
              [logEntry (Some (ID route)) (http.Method r) (http.URLPath r)
                 http.StatusServiceUnavailable duration r]
        | Ok _ =>
            Returned w' h'
              [logEntry (Some (ID route)) (http.Method r) (http.URLPath r)
                 http.StatusOK duration r]
        end
  end.

End ProxyHandler.

End handlers.

(** ** Package [core]: the engine, its shutdown channel and its workers *)

Module core.

Inductive Goroutine :=
  | Running
  | Exited.

(** Where [Start] and then [Stop] stand: blocked on [<-e.shutdown], in
    [Stop] before [e.wg.Wait()], blocked in [e.wg.Wait()], past it, or
    returned early with the error of [e.server.Shutdown]. *)
Inductive Main :=
  | AwaitSignal
  | Stopping
  | AwaitWorkers
  | Stopped
  | Failed.

(** [shutdown] counts the values held by the channel, which
    [make(chan os.Signal, 1)] gives room for one; [signals] counts the
    signals the process has been sent so far. *)
Record EngineV2 := mkEngineV2 {
  signals : nat;
  shutdown : nat;
  main : Main;
  server : Goroutine;
  wsHub : Goroutine;
  statsCollector : Goroutine;
  healthChecker : Goroutine;
  circuitBreakerMonitor : Goroutine
}.

(** The goroutines after [Start] has launched them all. *)
Definition started : EngineV2 :=
  {| signals := 0; shutdown := 0; main := AwaitSignal;
     server := Running; wsHub := Running;
     statsCollector := Running; healthChecker := Running;
     circuitBreakerMonitor := Running |}.

Inductive WorkerId :=
  | Stats
  | Health
  | Monitor.

Definition worker (i : WorkerId) (e : EngineV2) : Goroutine :=
  match i with
  | Stats => statsCollector e
  | Health => healthChecker e
  | Monitor => circuitBreakerMonitor e
  end.

(** The worker [i] takes the value out of the channel and returns. *)
Definition receive (i : WorkerId) (e : EngineV2) : EngineV2 :=
  {| signals := signals e; shutdown := Nat.pred (shutdown e); main := main e;
     server := server e; wsHub := wsHub e;
     statsCollector := match i with Stats => Exited | _ => statsCollector e end;
     healthChecker := match i with Health => Exited | _ => healthChecker e end;
     circuitBreakerMonitor := match i with Monitor => Exited | _ => circuitBreakerMonitor e end |}.

(** What the scheduler or the outside can make happen next. *)
Inductive Action :=
  | Signal
  | MainReceive
  | StopServer
  | StopServerFails
  | WaitReturns
  | Tick (i : WorkerId)
  | Shutdown (i : WorkerId).

Definition is_running (g : Goroutine) : bool :=
  match g with Running => true | Exited => false end.

(** One action; [None] when it cannot happen in the state [e].
    - [Signal]: [signal.Notify] sends without blocking, so a signal that
      finds the buffer full is dropped.
    - [MainReceive]: [<-e.shutdown] in [Start] takes the value.
    - [StopServer]: [Stop] shuts the server down and cancels the hub.
    - [StopServerFails]: [e.server.Shutdown] reports an error and [Stop]
      returns it.
    - [WaitReturns]: [e.wg.Wait()] returns once every goroutine is done.
    - [Tick i]: the ticker case of worker [i]; the health checker first
      polls the channel.
    - [Shutdown i]: the [<-e.shutdown] case of worker [i]. *)
Definition step (a : Action) (e : EngineV2) : option EngineV2 :=
  match a with
  | Signal =>
      Some {| signals := S (signals e);
              shutdown := if bool_decide (shutdown e < 1)%nat then S (shutdown e) else shutdown e;
              main := main e; server := server e; wsHub := wsHub e;
              statsCollector := statsCollector e; healthChecker := healthChecker e;
              circuitBreakerMonitor := circuitBreakerMonitor e |}
  | MainReceive =>
      match main e, shutdown e with
      | AwaitSignal, S n =>
          Some {| signals := signals e; shutdown := n; main := Stopping;
                  server := server e; wsHub := wsHub e;
                  statsCollector := statsCollector e; healthChecker := healthChecker e;
                  circuitBreakerMonitor := circuitBreakerMonitor e |}
      | _, _ => None
      end
  | StopServer =>
      match main e with
      | Stopping =>
          Some {| signals := signals e; shutdown := shutdown e; main := AwaitWorkers;
                  server := Exited; wsHub := Exited;
                  statsCollector := statsCollector e; healthChecker := healthChecker e;
                  circuitBreakerMonitor := circuitBreakerMonitor e |}
      | _ => None
      end
  | StopServerFails =>
      match main e with
      | Stopping =>
          Some {| signals := signals e; shutdown := shutdown e; main := Failed;
                  server := server e; wsHub := wsHub e;
                  statsCollector := statsCollector e; healthChecker := healthChecker e;
                  circuitBreakerMonitor := circuitBreakerMonitor e |}
      | _ => None
      end
  | WaitReturns =>
      match main e with
      | AwaitWorkers =>
          if is_running (server e) || is_running (wsHub e) || is_running (statsCollector e)
             || is_running (healthChecker e) || is_running (circuitBreakerMonitor e)
          then None
          else Some {| signals := signals e; shutdown := shutdown e; main := Stopped;
                       server := server e; wsHub := wsHub e;
                       statsCollector := statsCollector e; healthChecker := healthChecker e;
                       circuitBreakerMonitor := circuitBreakerMonitor e |}
      | _ => None
      end
  | Tick i =>
      if is_running (worker i e) then
        match i, shutdown e with
        | Health, S _ => Some (receive Health e)
        | _, _ => Some e
        end
      else None
  | Shutdown i =>
      if is_running (worker i e) then
        match shutdown e with
        | S _ => Some (receive i e)
        | O => None
        end
      else None
  end.

(** A schedule is a list of actions; it runs as long as each can happen. *)
Fixpoint run (acts : list Action) (e : EngineV2) : option EngineV2 :=
  match acts with
  | [] => Some e
  | a :: acts' =>
      match step a e with
      | Some e' => run acts' e'
      | None => None
      end
  end.

(** The background workers that have returned. *)
Definition exited (e : EngineV2) : nat :=
  length (List.filter (fun i => negb (is_running (worker i e))) [Stats; Health; Monitor]).

(** Whether [Start] has taken a value out of the channel. *)
Definition taken (e : EngineV2) : nat :=
  match main e with AwaitSignal => 0 | _ => 1 end.

(** Every value taken out of the channel or still in it was sent, the
    channel holds at most one, and [Stop] gets past [e.wg.Wait()] only
    when the three workers have returned. *)
Definition accounted (e : EngineV2) : Prop :=
  (shutdown e + taken e + exited e ≤ signals e)%nat
  ∧ (main e = Stopped → exited e = 3%nat).

End core.


(** ** Concrete scenarios, after section 8 of the design *)

Module scenario.

Import database.

Definition users_route (enabled : bool) : Route :=
  {| ID := 1; Path := "/api/users"; TargetURL := "http://b/u"; Method := "GET";
     Enabled := enabled; RateLimit := 0; Timeout := 30; CreatedAt := 0; UpdatedAt := 0 |}.

Definition store (reachable : bool) (rs : list Route) : Database :=
  {| up := reachable; encoding := UTF8; routes := rs;
     routes_id_seq := 1 + Z.of_nat (length rs);
     request_logs := []; request_logs_id_seq := 1 |}.

Definition get_users : http.Request :=
  {| http.Method := "GET"; http.URLPath := "/api/users"; http.ReqHeader := ∅;
     http.Body := ""; http.RemoteAddr := "10.0.0.1:4242"; http.Host := "gw.example";
     http.TLS := false |}.

(** A backend that answers every request with the given status. *)
Definition backend (status : Z) : proxy.Transport :=
  {| proxy.NewRequest_ok := fun _ _ => true;
     proxy.Do := fun _ => Some {| http.RespStatus := status; http.RespHeader := ∅;
                                  http.RespBody := "ok"; http.BodyErr := false |} |}.

Definition gateway (db : Database) : handlers.ProxyHandler.t :=
  {| handlers.ProxyHandler.repo := db;
     handlers.ProxyHandler.cache := cache.New (5 * Minute) 1000;
     handlers.ProxyHandler.cb := circuitbreaker.New |}.

(** The registry after [n] failing calls to the target [http://b/u], one
    per second, together with the number of times the backend was hit. *)
Fixpoint after_failures (n : nat) : circuitbreaker.CircuitBreaker * nat :=
  match n with
  | O => (circuitbreaker.New, O)
  | S n' =>
      let r := circuitbreaker.Execute (Z.of_nat n' * Second) "http://b/u"
                 circuitbreaker.failing (after_failures n').1 (after_failures n').2 in
      (r.1.2, r.2)
  end.

End scenario.
(** * Properties of the rate limiter *)

Section RateLimiter.
Import middleware.

















(** C10.  A client without an entry in the table is admitted and the
    table records exactly the current instant for it, whatever the
    limit is. *)
Theorem Allow_unknown_client (now : Z) (clientIP : string) (rl : RateLimiter) :
  requests rl !! clientIP = None →
  (Allow now clientIP rl).1 = true
  ∧ requests (Allow now clientIP rl).2 !! clientIP = Some [now]
  ∧ limit (Allow now clientIP rl).2 = limit rl.
Proof.
  intros E. unfold Allow. rewrite E. cbn.
  by rewrite lookup_insert_eq.
Qed.

Lemma Allow_unknown_client_witness :
  let rl := NewRateLimiter 0 in
  let c := "10.0.0.1:4242"%string in
  requests rl !! c = None
  ∧ (Allow 7 c rl).1 = true
  ∧ requests (Allow 7 c rl).2 !! c = Some [7]
  ∧ limit (Allow 7 c rl).2 = 0.
Proof.
  intros rl c.
  assert (requests rl !! c = None) as E by reflexivity.
  split; [exact E|].
  exact (Allow_unknown_client 7 c rl E).
Defined.

End RateLimiter.

(** * Properties of the cache *)

Section Cache.
Import cache.
Context {V : Type}.

Lemma scan_oldest_singleton_empty_key (item : Item V) :
  (scan_oldest [(""%string, item)]).1 = ""%string.
Proof. unfold scan_oldest, scan_step. cbn. by case_bool_decide. Qed.

(** The scan ends on the smallest expiration it has met, and on the key
    of an entry that carries it unless no entry lies below the start. *)
Lemma scan_fold (order : list (string * Item V)) : ∀ k0 t0,
  (fold_left scan_step order (k0, t0)).2 <= t0
  ∧ Forall (fun kv => (fold_left scan_step order (k0, t0)).2 <= Expiration kv.2) order
  ∧ ((fold_left scan_step order (k0, t0) = (k0, t0)
      ∧ Forall (fun kv => t0 <= Expiration kv.2) order)
     ∨ ∃ item, ((fold_left scan_step order (k0, t0)).1, item) ∈ order
               ∧ Expiration item = (fold_left scan_step order (k0, t0)).2
               ∧ (fold_left scan_step order (k0, t0)).2 < t0).
Proof.
  induction order as [|[k item] order IH]; intros k0 t0; cbn [fold_left].
  - cbn. split; [lia|]. split; [constructor|]. left. split; [done|constructor].
  - destruct (bool_decide (Expiration item < t0)) eqn:Hlt.
    + assert (scan_step (k0, t0) (k, item) = (k, Expiration item)) as ->
        by (unfold scan_step; cbn; by rewrite Hlt).
      apply bool_decide_eq_true in Hlt.
      destruct (IH k (Expiration item)) as (Hle & Hall & Hcase).
      split; [lia|]. split.
      * constructor; [exact Hle|exact Hall].
      * right. destruct Hcase as [[-> _]|(item' & Hin & He & Hlt')].
        -- exists item. cbn. split; [apply elem_of_cons; by left|]. split; [done|lia].
        -- exists item'. split; [apply elem_of_cons; by right|]. split; [done|lia].
    + assert (scan_step (k0, t0) (k, item) = (k0, t0)) as ->
        by (unfold scan_step; cbn; by rewrite Hlt).
      apply bool_decide_eq_false in Hlt.
      destruct (IH k0 t0) as (Hle & Hall & Hcase).
      split; [done|]. split.
      * constructor; [cbn; lia|done].
      * destruct Hcase as [[-> Hge]|(item' & Hin & He & Hlt')].
        -- left. split; [done|]. constructor; [cbn; lia|done].
        -- right. exists item'. split; [apply elem_of_cons; by right|]. done.
Qed.

Lemma elem_of_iteration (pick : gmap string (Item V) → list (string * Item V)) m k item :
  iteration pick → (k, item) ∈ pick m ↔ m !! k = Some item.
Proof. intros Hp. rewrite (Hp m). apply elem_of_map_to_list. Qed.

(** The entry [evictOldest] removes, when it removes one, has the
    smallest expiration of the cache. *)
Lemma evictOldest_removes_smallest
    (pick : gmap string (Item V) → list (string * Item V)) (c : Cache V) k item :
  iteration pick →
  items c !! k = Some item →
  items (evictOldest (pick (items c)) c) !! k = None →
  ∀ k' item', items c !! k' = Some item' → Expiration item <= Expiration item'.
Proof.
  intros Hp Hk Hgone k' item' Hk'.
  unfold evictOldest, scan_oldest in Hgone.
  destruct (scan_fold (pick (items c)) "" MaxInt64) as (_ & Hall & Hcase).
  set (r := fold_left scan_step (pick (items c)) (""%string, MaxInt64)) in *.
  case_bool_decide as Hne; [|congruence].
  cbn in Hgone.
  destruct (decide (r.1 = k)) as [Heq|Hneq]; [|by rewrite lookup_delete_ne, Hk in Hgone].
  destruct Hcase as [[Hr _]|(item0 & Hin & He & _)].
  - rewrite Hr in Hne. done.
  - apply (elem_of_iteration pick) in Hin; [|done].
    rewrite Heq, Hk in Hin. injection Hin as <-.
    rewrite He. rewrite Forall_forall in Hall.
    apply (Hall (k', item')). by apply (elem_of_iteration pick).
Qed.

(** On a full cache of evictable entries the scan does remove one. *)
Lemma evictOldest_size
    (pick : gmap string (Item V) → list (string * Item V)) (c : Cache V) :
  iteration pick → evictable (items c) → (0 < size (items c))%nat →
  S (size (items (evictOldest (pick (items c)) c))) = size (items c).
Proof.
  intros Hp Hev Hsz. unfold evictOldest, scan_oldest.
  destruct (scan_fold (pick (items c)) "" MaxInt64) as (_ & _ & Hcase).
  set (r := fold_left scan_step (pick (items c)) (""%string, MaxInt64)) in *.
  destruct Hcase as [[_ Hge]|(item0 & Hin & He & _)].
  - exfalso. destruct (map_choose (items c)) as (k & item & Hk).
    { intros Hempty. rewrite Hempty, map_size_empty in Hsz. lia. }
    rewrite Forall_forall in Hge.
    specialize (Hge (k, item) (proj2 (elem_of_iteration pick _ _ _ Hp) Hk)).
    destruct (Hev k item Hk) as [_ Hlt]. cbn in Hge. lia.
  - apply (elem_of_iteration pick) in Hin; [|done].
    destruct (Hev _ _ Hin) as [Hne _].
    rewrite bool_decide_eq_true_2 by done. cbn.
    rewrite map_size_delete_Some by (by eexists).
    destruct (size (items c)); [lia|done].
Qed.

(** What does hold of C7: as long as no entry has the key [""] or the
    expiration [MaxInt64], the cache never grows beyond [maxSize]. *)
Lemma apply_all_size_bound
    (pick : gmap string (Item V) → list (string * Item V)) (es : list (Z * Op V)) :
  iteration pick → ∀ c,
  1 <= maxSize c →
  Forall (fun e => writes_evictable e
                   ∧ match e.2 with
                     | OpSet _ _ => wrap64 (e.1 + defaultTTL c) < MaxInt64
                     | _ => True
                     end) es →
  evictable (items c) → Size c <= maxSize c →
  Size (apply_all pick c es) <= maxSize c
  ∧ maxSize (apply_all pick c es) = maxSize c.
Proof.
  intros Hp. induction es as [|[now op] es IH]; intros c Hmax Hes Hev Hsz; [done|].
  apply Forall_cons in Hes as [[Hw Hd] Hes].
  unfold apply_all in *. cbn [fold_left].
  assert (∀ key value ttl, key ≠ ""%string → wrap64 (now + ttl) < MaxInt64 →
            let c' := SetWithTTL now (pick (items c)) key value ttl c in
            evictable (items c') ∧ Size c' <= maxSize c
            ∧ maxSize c' = maxSize c ∧ defaultTTL c' = defaultTTL c) as Hset.
  { intros key value ttl Hkey Hexp. unfold SetWithTTL, Size in *.
    case_bool_decide as Hfull.
    - assert (0 < size (items c))%nat as Hpos by lia.
      pose proof (evictOldest_size pick c Hp Hev Hpos) as Hsize.
      assert (maxSize (evictOldest (pick (items c)) c) = maxSize c
              ∧ defaultTTL (evictOldest (pick (items c)) c) = defaultTTL c
              ∧ evictable (items (evictOldest (pick (items c)) c))) as (Hm & Hd' & Hev').
      { unfold evictOldest. case_bool_decide; [|done]. cbn.
        split; [done|]. split; [done|].
        intros k1 it1 Hk. apply lookup_delete_Some in Hk as [_ Hk]. by apply (Hev k1 it1). }
      cbn. rewrite Hm, Hd'. split; [|split; [|done]].
      + intros k1 it1. rewrite lookup_insert. case_decide.
        * intros [= <-]. cbn. by subst.
        * apply Hev'.
      + pose proof (map_size_insert key
           {| Value := value; Expiration := wrap64 (now + ttl) |}
           (items (evictOldest (pick (items c)) c))) as Hins.
        destruct (items (evictOldest (pick (items c)) c) !! key); cbn in Hins; lia.
    - cbn. split; [|split; [|done]].
      + intros k1 it1. rewrite lookup_insert. case_decide.
        * intros [= <-]. cbn. by subst.
        * apply Hev.
      + pose proof (map_size_insert key
           {| Value := value; Expiration := wrap64 (now + ttl) |} (items c)) as Hins.
        destruct (items c !! key); cbn in Hins; lia. }
  destruct op as [key value|key value ttl|key|]; unfold apply at 2; cbn [fst snd];
    unfold writes_evictable in Hw; cbn [fst snd] in Hw, Hd.
  - destruct (Hset key value (defaultTTL c) Hw Hd) as (Hev' & Hsz' & Hm' & Hd').
    unfold Set_. specialize (IH _ ltac:(by rewrite Hm')).
    rewrite Hm', Hd' in IH. by apply IH.
  - destruct Hw as [Hk Hx].
    destruct (Hset key value ttl Hk Hx) as (Hev' & Hsz' & Hm' & Hd').
    specialize (IH _ ltac:(by rewrite Hm')).
    rewrite Hm', Hd' in IH. by apply IH.
  - specialize (IH (Delete key c) Hmax). cbn [Delete set_items maxSize defaultTTL] in IH.
    apply IH; [done| |].
    + intros k1 it1 Hk. cbn in Hk. apply lookup_delete_Some in Hk as [_ Hk]. by apply (Hev k1 it1).
    + unfold Size in *. cbn. pose proof (map_size_delete key (items c)).
      destruct (items c !! key); cbn in *; lia.
  - specialize (IH (Clear c) Hmax). cbn [Clear set_items maxSize defaultTTL] in IH.
    apply IH; [done| |].
    + intros k1 it1 Hk. cbn in Hk. by rewrite lookup_empty in Hk.
    + unfold Size. cbn. rewrite map_size_empty. lia.
Qed.

(** C7 at the failing input.  With [maxSize = 1], setting the key [""]
    and then the key ["a"] leaves two entries in the cache: the scan of
    [evictOldest] ends with [oldestKey = ""], which the guard before the
    [delete] takes for "nothing found".  This holds for every iteration
    order, every clock reading and every TTL. *)
Theorem evictOldest_empty_key_overflow
    (pick : gmap string (Item V) → list (string * Item V))
    (v v' : V) (t t' ttl : Z) :
  iteration pick →
  let c := apply_all pick (New ttl 1) [(t, OpSet "" v); (t', OpSet "a" v')] in
  Size c = 2 ∧ maxSize c = 1 ∧ is_Some (items c !! ""%string).
Proof.
  intros Hpick.
  set (item := {| Value := v; Expiration := wrap64 (t + ttl) |}).
  assert (apply pick (New ttl 1) (t, OpSet "" v)
          = {| items := {[""%string := item]}; defaultTTL := ttl; maxSize := 1 |}) as E1.
  { unfold apply, Set_, SetWithTTL, New, set_items. cbn -[wrap64].
    rewrite map_size_empty. rewrite bool_decide_eq_false_2 by lia.
    cbn -[wrap64]. by rewrite insert_empty. }
  unfold apply_all. cbn [fold_left]. rewrite E1.
  unfold apply, Set_, SetWithTTL. cbn -[wrap64].
  rewrite map_size_singleton. rewrite bool_decide_eq_true_2 by lia.
  assert (pick {[""%string := item]} = [(""%string, item)]) as ->.
  { apply Permutation_singleton_r. rewrite Hpick. by rewrite map_to_list_singleton. }
  unfold evictOldest. rewrite scan_oldest_singleton_empty_key.
  rewrite bool_decide_eq_false_2 by (intros H; by apply H).
  unfold Size. cbn -[wrap64].
  split; [|split; [done|]].
  - rewrite map_size_insert_None by done. by rewrite map_size_singleton.
  - rewrite lookup_insert_ne by done. rewrite lookup_singleton_eq. by eexists.
Qed.

End Cache.

Lemma evictOldest_empty_key_overflow_witness :
  cache.iteration (V := nat) map_to_list
  ∧ let c := cache.apply_all (V := nat) map_to_list (cache.New 60 1)
               [(0, cache.OpSet "" 1%nat); (5, cache.OpSet "a" 2%nat)] in
    cache.Size c = 2 ∧ cache.maxSize c = 1 ∧ is_Some (cache.items c !! ""%string).
Proof.
  assert (cache.iteration (V := nat) map_to_list) as H by (intros m; reflexivity).
  split; [exact H|].
  exact (evictOldest_empty_key_overflow map_to_list 1%nat 2%nat 0 5 60 H).
Defined.

(** * Properties of the proxy handler *)

Section ProxyHandler.
Import database handlers handlers.ProxyHandler.

Lemma FindByPath_Ok path method db route :
  FindByPath path method db = Ok route →
  In route (routes db) ∧ Path route = path ∧ Method route = method ∧ Enabled route = true.
Proof.
  unfold FindByPath. destruct (up db); [|done].
  destruct (text db path && text db method); [|done].
  destruct (List.find _ (routes db)) as [r|] eqn:E; [|done].
  intros [= ->]. apply List.find_some in E as [Hin Hb].
  apply andb_prop in Hb as [Hb He]. apply andb_prop in Hb as [Hp Hm].
  apply bool_decide_eq_true in Hp, Hm. done.
Qed.

(** The store's find skips a disabled route, so the handler's branch
    for disabled routes is never taken. *)
Lemma FindByPath_disabled path method db :
  (∀ route, In route (routes db) → Path route = path → Method route = method →
            Enabled route = false) →
  ∃ e, FindByPath path method db = Err e.
Proof.
  intros Hall. destruct (FindByPath path method db) as [route|e] eqn:E; [|by eexists].
  apply FindByPath_Ok in E as (Hin & Hp & Hm & He).
  rewrite (Hall route Hin Hp Hm) in He. done.
Qed.

(** C1 on the code.  When the only persisted route for the request's
    path is disabled, [Handle] answers 404 "Route not found" and starts
    a log entry with status 404 and no route id: the reply of a request
    that matches nothing. *)
Theorem Handle_disabled_route_not_found
    (net : proxy.Transport) (now duration : Z) (w : response.Writer)
    (r : http.Request) (h : t) (route : Route) :
  In route (routes (repo h)) →
  Path route = http.URLPath r →
  Method route = http.Method r →
  Enabled route = false →
  (∀ r1 r2, In r1 (routes (repo h)) → In r2 (routes (repo h)) → Path r1 = Path r2 → r1 = r2) →
  Handle net now duration w r h =
    Returned (response.NotFound "Route not found" w) h
      [logEntry None (http.Method r) (http.URLPath r) http.StatusNotFound duration r].
Proof.
  intros Hin Hp Hm He Huniq.
  destruct (FindByPath_disabled (http.URLPath r) (http.Method r) (repo h)) as [e E].
  - intros r' Hin' Hp' _. rewrite (Huniq r' route Hin' Hin); [done|]. congruence.
  - unfold Handle. by rewrite E.
Qed.

Lemma Handle_disabled_route_not_found_witness :
  let h := scenario.gateway (scenario.store true [scenario.users_route false]) in
  let r := scenario.get_users in
  match Handle (scenario.backend 200) 0 0 http.NewRecorder r h with
  | Returned w _ logs =>
      http.status w = Some 404
      ∧ List.map (fun l => (RouteID l, StatusCode l)) logs = [(None, 404)]
  | Panicked _ _ => False
  end.
Proof.
  intros h r.
  rewrite (Handle_disabled_route_not_found (scenario.backend 200) 0 0 http.NewRecorder
             r h (scenario.users_route false)).
  - split; reflexivity.
  - left; reflexivity.
  - reflexivity.
  - reflexivity.
  - reflexivity.
  - intros r1 r2 [<-|[]] [<-|[]] _. reflexivity.
Defined.



(** A breaker that is not open lets the call through: the result and
    the world are those of the protected function. *)
Lemma Execute_runs {W E A} now target (fn : W → result E A * W) cb (w : W) :
  gobreaker.state (circuitbreaker.current now target cb) ≠ gobreaker.StateOpen →
  ∃ cb',
    circuitbreaker.Execute now target fn cb w
    = (match (fn w).1 with
       | Ok a => Ok a
       | Err e => Err (circuitbreaker.Wrapped target (inr e))
       end, cb', (fn w).2).
Proof.
  unfold circuitbreaker.current, circuitbreaker.Execute, gobreaker.Execute.
  destruct (circuitbreaker.GetBreaker now target cb) as [breaker cb0]. cbn [fst].
  intros Hst.
  destruct (gobreaker.state (gobreaker.currentState now breaker)); [| |done];
    destruct (fn w) as [[a|e] w1]; by eexists.
Qed.

(** Copying the headers of the backend does not send the status line. *)
Lemma copy_headers_wrote (hs : list (string * list string)) : ∀ w : response.Writer,
  http.wrote
    (fold_left
       (fun w' (kv : string * list string) =>
          fold_left (fun w'' value => http.AddHeader kv.1 value w'') kv.2 w') hs w)
  = http.wrote w.
Proof.
  induction hs as [|[k vs] hs IH]; intros w; [done|].
  cbn [fold_left]. rewrite IH. cbn [fst snd].
  revert w. induction vs as [|v vs IHv]; intros w; [done|].
  cbn [fold_left]. by rewrite IHv.
Qed.

(** [CopyResponse] on a writer not yet written to, for a status code
    the server takes as the final one: the client receives that code. *)
Lemma CopyResponse_status (w : response.Writer) resp :
  http.wrote w = None →
  http.checkWriteHeaderCode (http.RespStatus resp) = true →
  http.informational (http.RespStatus resp) = false →
  (proxy.CopyResponse w resp).1
  = proxy.Returns (if http.BodyErr resp then Some proxy.ErrCopyBody else None)
  ∧ http.status (proxy.CopyResponse w resp).2 = Some (http.RespStatus resp).
Proof.
  intros Hw Hc Hi. unfold proxy.CopyResponse, http.WriteHeaderCode.
  rewrite copy_headers_wrote, Hw, Hc, Hi. cbn [fst snd]. split; [done|].
  unfold http.WriteHeader. rewrite copy_headers_wrote, Hw.
  by case_bool_decide.
Qed.

(** A reply helper called after the status line is out does not change
    the status the client has received. *)
Lemma status_JSON_written code data (w : response.Writer) st :
  http.status w = Some st → http.status (response.JSON code data w) = Some st.
Proof.
  unfold http.status, response.JSON, http.Write, http.WriteHeader, http.SetHeader. cbn.
  destruct (http.wrote w) as [[c hd]|]; [|done]. done.
Qed.

(** C4 on the code.  A request for an enabled route that a breaker lets
    through, answered by the backend with a status code [s] that the
    server sends on: the client receives [s], and the one log entry
    [Handle] starts says 200 (503 when the body breaks off), whatever
    [s] is; the row a successful write of the entry creates carries the
    entry's status and the route's id. *)
Theorem Handle_logs_constant_status
    (net : proxy.Transport) (now duration : Z) (w : response.Writer)
    (r : http.Request) (h : t) (route : Route) (resp : http.Response) :
  http.wrote w = None →
  FindByPath (http.URLPath r) (http.Method r) (repo h) = Ok route →
  gobreaker.state (circuitbreaker.current now (TargetURL route) (cb h))
    ≠ gobreaker.StateOpen →
  proxy.Forward net (TargetURL route) r = Ok resp →
  http.checkWriteHeaderCode (http.RespStatus resp) = true →
  http.informational (http.RespStatus resp) = false →
  ∃ w' h' entry,
    Handle net now duration w r h = Returned w' h' [entry]
    ∧ http.status w' = Some (http.RespStatus resp)
    ∧ LogMethod entry = http.Method r ∧ LogPath entry = http.URLPath r
    ∧ RouteID entry = Some (ID route)
    ∧ StatusCode entry
      = (if http.BodyErr resp then http.StatusServiceUnavailable else http.StatusOK)
    ∧ ∀ now' db' row db'',
        CreateLog now' entry db' = (Ok row, db'') →
        ∃ stored,
          request_logs db'' = request_logs db' ++ [stored]
          ∧ StatusCode stored = StatusCode entry ∧ RouteID stored = RouteID entry.
Proof.
  intros Hw Hfind Hst Hfwd Hc Hi.
  assert (∀ entry now' db' row db'',
            CreateLog now' entry db' = (Ok row, db'') →
            ∃ stored,
              request_logs db'' = request_logs db' ++ [stored]
              ∧ StatusCode stored = StatusCode entry ∧ RouteID stored = RouteID entry) as Hrow.
  { intros entry now' db' row db''. unfold CreateLog.
    destruct (up db'); [|done]. destruct (log_params_ok db' entry); [|done].
    destruct (int4 (request_logs_id_seq db')); [|done].
    destruct (varchar db' 10 _); [|done]. destruct (varchar db' 255 _); [|done].
    destruct (varchar db' 45 _); [|done]. destruct (route_exists _ db'); [|done].
    intros [= _ <-]. by eexists. }
  pose proof (FindByPath_Ok _ _ _ _ Hfind) as (_ & _ & _ & Hen).
  destruct (CopyResponse_status w resp Hw Hc Hi) as [Hret Hstatus].
  unfold Handle. rewrite Hfind, Hen. cbn [negb].
  match goal with
  | |- context [circuitbreaker.Execute _ _ ?f _ _] => set (fn := f)
  end.
  destruct (Execute_runs now (TargetURL route) fn (cb h) w Hst) as [cb' ->].
  assert (fn w = (match (proxy.CopyResponse w resp).1 with
                  | proxy.Returns None => Ok tt
                  | proxy.Returns (Some e) => Err (Failed e)
                  | proxy.Panics code => Err (Panic code)
                  end, (proxy.CopyResponse w resp).2)) as ->.
  { unfold fn, proxy.ForwardAndCopy. rewrite Hfwd.
    by destruct (proxy.CopyResponse w resp) as [[[e|]|code] w1]. }
  rewrite Hret. cbn [fst snd].
  destruct (http.BodyErr resp).
  - eexists _, _, _. split; [reflexivity|]. split.
    + unfold response.ServiceUnavailable, response.Error.
      apply status_JSON_written. exact Hstatus.
    + cbn. repeat split; try done. apply Hrow.
  - eexists _, _, _. split; [reflexivity|]. split; [exact Hstatus|].
    cbn. repeat split; try done. apply Hrow.
Qed.

(** When [Handle] returns it has started exactly one log entry, for the
    method and the path of the request; it panics only on a status code
    of the backend that the server refuses to send. *)
Lemma Handle_outcome
    (net : proxy.Transport) (now duration : Z) (w : response.Writer)
    (r : http.Request) (h : t) :
  match Handle net now duration w r h with
  | Returned _ _ logs =>
      ∃ entry, logs = [entry] ∧ LogMethod entry = http.Method r
               ∧ LogPath entry = http.URLPath r
  | Panicked _ code => http.checkWriteHeaderCode code = false
  end.
Proof.
  unfold Handle.
  destruct (FindByPath _ _ _) as [route|e]; [|by eexists].
  destruct (Enabled route); cbn [negb]; [|by eexists].
  unfold circuitbreaker.Execute, gobreaker.Execute.
  destruct (circuitbreaker.GetBreaker _ _ _) as [breaker cb0].
  assert (∀ w0 code w1,
            proxy.ForwardAndCopy net w0 r (TargetURL route) = (proxy.Panics code, w1) →
            http.checkWriteHeaderCode code = false) as Hpanic.
  { intros w0 code w1. unfold proxy.ForwardAndCopy, proxy.CopyResponse, http.WriteHeaderCode.
    destruct (proxy.Forward _ _ _) as [resp|e]; [|done].
    destruct (http.wrote _); [done|].
    destruct (http.checkWriteHeaderCode _) eqn:Hc; [done|]. by intros [= <- _]. }
  destruct (gobreaker.state (gobreaker.currentState now breaker)); try (by eexists);
    destruct (proxy.ForwardAndCopy net w r (TargetURL route)) as [[[e|]|code] w1] eqn:E;
    try (by eexists); by eapply Hpanic.
Qed.

(** The failing input of C4: the backend answers 500.  The client
    receives 500; the entry, and the row written from it to the
    reachable store, say 200. *)
Lemma Handle_logs_constant_status_witness :
  let db := scenario.store true [scenario.users_route true] in
  let h := scenario.gateway db in
  let r := scenario.get_users in
  let w : response.Writer := http.NewRecorder in
  ∃ w' h' entry,
    Handle (scenario.backend 500) 0 0 w r h = Returned w' h' [entry]
    ∧ http.status w' = Some 500
    ∧ StatusCode entry = 200
    ∧ StatusCode <$> request_logs (logRequest_run 1 entry db) = [200].
Proof.
  intros db h r w.
  destruct (Handle_logs_constant_status (scenario.backend 500) 0 0 w r h
              (scenario.users_route true)
              {| http.RespStatus := 500; http.RespHeader := ∅;
                 http.RespBody := "ok"; http.BodyErr := false |})
    as (w' & h' & entry & HH & Hs & Hm & Hp & Hid & Hcode & Hrow).
  - reflexivity.
  - vm_compute. reflexivity.
  - vm_compute. congruence.
  - vm_compute. reflexivity.
  - vm_compute. reflexivity.
  - vm_compute. reflexivity.
  - exists w', h', entry. split; [exact HH|]. split; [exact Hs|]. split; [exact Hcode|].
    injection HH as _ _ <-. vm_compute. reflexivity.
Defined.

End ProxyHandler.

(** * Properties of the route handlers *)

Section RouteHandler.
Import database handlers handlers.RouteHandler.

Lemma status_JSON code data (w : response.Writer) :
  http.wrote w = None → http.status (response.JSON code data w) = Some code.
Proof.
  intros Hw. unfold response.JSON, http.status, http.Write, http.WriteHeader, http.SetHeader.
  cbn. rewrite Hw. reflexivity.
Qed.

Lemma status_Error code message (w : response.Writer) :
  http.wrote w = None → http.status (response.Error code message w) = Some code.
Proof. apply status_JSON. Qed.

Lemma Delete_twice_lookup (c : cache.Cache CacheValue) k1 k2 :
  cache.items (cache.Delete k2 (cache.Delete k1 c)) !! k1 = None
  ∧ cache.items (cache.Delete k2 (cache.Delete k1 c)) !! k2 = None.
Proof.
  unfold cache.Delete. cbn. split.
  - destruct (decide (k2 = k1)) as [->|Hne].
    + apply lookup_delete_eq.
    + rewrite lookup_delete_ne by done. apply lookup_delete_eq.
  - apply lookup_delete_eq.
Qed.

(** What the three writes remove on success, on a writer not yet
    written to: an update or a delete that answers 200 has removed
    [routes:all] and the key built from the id segment of its URL, and
    a create that answers 201 has removed [routes:all]. *)
Lemma writes_remove_keys
    (now : Z) (w : response.Writer) (idStr : string) (body : option Route) (h : t) :
  http.wrote w = None →
  (http.status (Create now w body h).1 = Some http.StatusCreated →
   cache (Create now w body h).2 = cache.Delete "routes:all" (cache h))
  ∧ (http.status (Update now w idStr body h).1 = Some http.StatusOK →
     cache.items (cache (Update now w idStr body h).2) !! "routes:all"%string = None
     ∧ cache.items (cache (Update now w idStr body h).2) !! ("route:" ++ idStr)%string = None)
  ∧ (http.status (Delete w idStr h).1 = Some http.StatusOK →
     cache.items (cache (Delete w idStr h).2) !! "routes:all"%string = None
     ∧ cache.items (cache (Delete w idStr h).2) !! ("route:" ++ idStr)%string = None).
Proof.
  intros Hw. split; [|split].
  - unfold Create. destruct body as [route|].
    + destruct (_ || _).
      * cbn [fst]. unfold response.BadRequest. rewrite status_Error by done. done.
      * destruct (database.Create now route (repo h)) as [[route'|e] db]; cbn [fst snd cache].
        -- done.
        -- unfold response.InternalServerError. rewrite status_Error by done. done.
    + cbn [fst]. unfold response.BadRequest. rewrite status_Error by done. done.
  - unfold Update. destruct (strconv.Atoi idStr) as [id|].
    + destruct body as [route|].
      * destruct (_ || _).
        -- cbn [fst]. unfold response.BadRequest. rewrite status_Error by done. done.
        -- destruct (database.Update now _ (repo h)) as [[route'|e] db]; cbn [fst snd cache].
           ++ intros _. apply Delete_twice_lookup.
           ++ unfold response.InternalServerError. rewrite status_Error by done. done.
      * cbn [fst]. unfold response.BadRequest. rewrite status_Error by done. done.
    + cbn [fst]. unfold response.BadRequest. rewrite status_Error by done. done.
  - unfold Delete. destruct (strconv.Atoi idStr) as [id|].
    + destruct (database.Delete id (repo h)) as [[u|e] db]; cbn [fst snd cache].
      * intros _. apply Delete_twice_lookup.
      * unfold response.InternalServerError. rewrite status_Error by done. done.
    + cbn [fst]. unfold response.BadRequest. rewrite status_Error by done. done.
Qed.

Lemma route_key_inj s1 s2 : ("route:" ++ s1)%string = ("route:" ++ s2)%string → s1 = s2.
Proof. intros H. change (String.append "route:" s1 = String.append "route:" s2) in H.
  cbn [String.append] in H. by injection H. Qed.

Lemma route_key_not_all s : ("route:" ++ s)%string ≠ "routes:all"%string.
Proof. intros H. change (String.append "route:" s = "routes:all"%string) in H.
  cbn [String.append] in H. discriminate H. Qed.

(** Deleting other keys leaves the entry of a key as it is. *)
Lemma Delete_twice_other (c : cache.Cache CacheValue) k1 k2 k :
  k ≠ k1 → k ≠ k2 →
  cache.items (cache.Delete k2 (cache.Delete k1 c)) !! k = cache.items c !! k.
Proof.
  intros H1 H2. unfold cache.Delete. cbn.
  by rewrite !lookup_delete_ne.
Qed.

(** A write through the segment [s2] leaves the entry of every other
    segment in place, whether it succeeds or not. *)
Lemma write_keeps_other_key
    (now : Z) (w : response.Writer) (s1 s2 : string) (body : option Route) (h : t) :
  s1 ≠ s2 →
  cache.items (cache (Update now w s2 body h).2) !! ("route:" ++ s1)%string
  = cache.items (cache h) !! ("route:" ++ s1)%string
  ∧ cache.items (cache (Delete w s2 h).2) !! ("route:" ++ s1)%string
    = cache.items (cache h) !! ("route:" ++ s1)%string.
Proof.
  intros Hne.
  assert (cache.items (cache.Delete ("route:" ++ s2) (cache.Delete "routes:all" (cache h)))
            !! ("route:" ++ s1)%string
          = cache.items (cache h) !! ("route:" ++ s1)%string) as Hkept.
  { apply Delete_twice_other.
    - apply route_key_not_all.
    - intros E. apply route_key_inj in E. done. }
  split.
  - unfold Update. destruct (strconv.Atoi s2); [|done].
    destruct body as [b|]; [|done]. destruct (_ || _); [done|].
    by destruct (database.Update now _ (repo h)) as [[route'|e] db].
  - unfold Delete. destruct (strconv.Atoi s2); [|done].
    by destruct (database.Delete _ (repo h)) as [[u|e] db].
Qed.

(** After a delete that the store has carried out, the id names no
    route. *)
Lemma Delete_then_FindByID id db u db' :
  database.Delete id db = (Ok u, db') → FindByID id db' = Err ErrNoRows.
Proof.
  unfold database.Delete, FindByID. destruct (up db) eqn:Hup; [|done].
  destruct (int4 id) eqn:Hid; [|done]. intros [= _ <-]. cbn [up routes].
  destruct (List.find _ _) as [r|] eqn:E; [|done].
  apply List.find_some in E as [Hin Hb]. apply List.filter_In in Hin as [_ Hn].
  by rewrite Hb in Hn.
Qed.

Lemma find_map_replace id row (rs : list Route) old :
  ID row = id →
  List.find (fun r => bool_decide (ID r = id)) rs = Some old →
  List.find (fun r => bool_decide (ID r = id))
    (List.map (fun r => if bool_decide (ID r = id) then row else r) rs) = Some row.
Proof.
  intros Hrow. induction rs as [|r rs IH]; [done|]. cbn.
  destruct (bool_decide (ID r = id)) eqn:E.
  - intros _. by rewrite bool_decide_eq_true_2.
  - rewrite E. exact IH.
Qed.

(** After an update that the store has carried out, the row read back
    by id carries the flag of the update and its stamp. *)
Lemma Update_then_FindByID now route db route' db' :
  database.Update now route db = (Ok route', db') →
  ∃ row, FindByID (ID route) db' = Ok row
         ∧ Enabled row = Enabled route ∧ UpdatedAt row = now.
Proof.
  unfold database.Update, FindByID. destruct (up db) eqn:Hup; [|done].
  destruct (route_params_ok db route && int4 (ID route)) eqn:Hp; [|done].
  apply andb_prop in Hp as [_ Hid].
  destruct (List.find _ (routes db)) as [old|] eqn:Hfind; [|done].
  destruct (varchar db 255 _) as [path|]; [|done].
  destruct (varchar db 500 _) as [target|]; [|done].
  destruct (varchar db 10 _) as [method|]; [|done].
  destruct (path_free _ _ _); [|done]. intros [= _ <-]. cbn [up routes set_routes].
  rewrite Hup, Hid. eexists.
  erewrite find_map_replace; [split; [reflexivity|]|reflexivity|exact Hfind]. done.
Qed.

(** C2 on the code.  [Get] keeps a route in the cache under the id
    segment as the URL spells it, and the writes remove the key of
    their own segment only.  So when two segments [s1] and [s2] denote
    the same id, an update or a delete through [s2] leaves the entry
    [route:<s1>] in the cache, and a later [Get] through [s1] still
    answers with the cached route, even though a successful update has
    changed the row in the store and a successful delete has left no
    such route there. *)
Theorem write_by_alias_keeps_route_key
    (now now1 now2 : Z) (order : list (string * cache.Item CacheValue))
    (w w2 : response.Writer) (s1 s2 : string) (id : Z) (body : option Route)
    (h : t) (cached : CacheValue) :
  s1 ≠ s2 →
  strconv.Atoi s1 = Some id →
  strconv.Atoi s2 = Some id →
  http.wrote w = None →
  cache.Get now1 ("route:" ++ s1) (cache h) = Some cached →
  let hu := (Update now w s2 body h).2 in
  let hd := (Delete w s2 h).2 in
  cache.items (cache hu) !! ("route:" ++ s1)%string
    = cache.items (cache h) !! ("route:" ++ s1)%string
  ∧ (Get now1 now2 order w2 s1 hu).1
    = response.Success "Route retrieved from cache" (of_cached cached) w2
  ∧ cache.items (cache hd) !! ("route:" ++ s1)%string
    = cache.items (cache h) !! ("route:" ++ s1)%string
  ∧ (Get now1 now2 order w2 s1 hd).1
    = response.Success "Route retrieved from cache" (of_cached cached) w2
  ∧ (∀ b, body = Some b →
       http.status (Update now w s2 body h).1 = Some http.StatusOK →
       ∃ row, FindByID id (repo hu) = Ok row
              ∧ Enabled row = Enabled b ∧ UpdatedAt row = now)
  ∧ (http.status (Delete w s2 h).1 = Some http.StatusOK →
     FindByID id (repo hd) = Err ErrNoRows).
Proof.
  intros Hne H1 H2 Hw Hc hu hd.
  destruct (write_keeps_other_key now w s1 s2 body h Hne) as [Hu Hd].
  assert (∀ h', cache.items (cache h') !! ("route:" ++ s1)%string
                = cache.items (cache h) !! ("route:" ++ s1)%string →
            (Get now1 now2 order w2 s1 h').1
            = response.Success "Route retrieved from cache" (of_cached cached) w2) as Hget.
  { intros h' Hsame. unfold Get. rewrite H1.
    assert (cache.Get now1 ("route:" ++ s1) (cache h') = Some cached) as ->; [|done].
    unfold cache.Get in *. by rewrite Hsame. }
  split; [exact Hu|]. split; [by apply Hget|].
  split; [exact Hd|]. split; [by apply Hget|]. split.
  - intros b ->. unfold hu, Update. rewrite H2.
    destruct (_ || _).
    + cbn [fst]. unfold response.BadRequest. rewrite status_Error by done. done.
    + destruct (database.Update now (with_id id b) (repo h)) as [[route'|e] db] eqn:E;
        cbn [fst snd repo].
      * intros _. apply (Update_then_FindByID now (with_id id b) (repo h) route' db E).
      * unfold response.InternalServerError. rewrite status_Error by done. done.
  - unfold hd, Delete. rewrite H2.
    destruct (database.Delete id (repo h)) as [[u|e] db] eqn:E; cbn [fst snd repo].
    + intros _. by eapply Delete_then_FindByID.
    + unfold response.InternalServerError. rewrite status_Error by done. done.
Qed.

(** The failing input of C2.  The store holds the route 1 and the cache
    is empty.  [GET /api/routes/1] caches the route; [PUT
    /api/routes/01] switches it off and answers 200; the entry
    [route:1] is still there, and [GET /api/routes/1] answers with the
    route as it was. *)
Lemma write_by_alias_keeps_route_key_witness :
  let h0 : t := {| repo := scenario.store true [scenario.users_route true];
                   cache := cache.New (5 * Minute) 1000 |} in
  let w : response.Writer := http.NewRecorder in
  let h1 := (Get 1 1 [] w "1" h0).2 in
  let body := Some (scenario.users_route false) in
  let h2 := (Update 9 w "01" body h1).2 in
  http.status (Update 9 w "01" body h1).1 = Some http.StatusOK
  ∧ Enabled <$> routes (repo h2) = [false]
  ∧ cache.items (cache h2) !! "route:1"%string = cache.items (cache h1) !! "route:1"%string
  ∧ (Get 10 10 [] w "1" h2).1
    = response.Success "Route retrieved from cache"
        (response.OfRoute (scenario.users_route true)) w.
Proof.
  intros h0 w h1 body h2.
  split; [vm_compute; reflexivity|]. split; [vm_compute; reflexivity|].
  destruct (write_by_alias_keeps_route_key 9 10 10 [] w w "1" "01" 1 body h1
              (OneRoute (scenario.users_route true))) as (Hkey & Hget & _).
  - vm_compute. congruence.
  - vm_compute. reflexivity.
  - vm_compute. reflexivity.
  - reflexivity.
  - vm_compute. reflexivity.
  - split; [exact Hkey|exact Hget].
Defined.

(** ** What [Create] leaves in the cache *)

Lemma evictOldest_lookup (order : list (string * cache.Item CacheValue))
    (c : cache.Cache CacheValue) k item :
  cache.items (cache.evictOldest order c) !! k = Some item → cache.items c !! k = Some item.
Proof.
  unfold cache.evictOldest. case_bool_decide as Hb; [|done]. cbn.
  intros Hk. apply lookup_delete_Some in Hk as [_ Hk]. exact Hk.
Qed.

Lemma SetWithTTL_lookup now (order : list (string * cache.Item CacheValue)) key v ttl
    (c : cache.Cache CacheValue) k item :
  k ≠ key →
  cache.items (cache.SetWithTTL now order key v ttl c) !! k = Some item →
  cache.items c !! k = Some item.
Proof.
  intros Hne. unfold cache.SetWithTTL. cbn. rewrite lookup_insert_ne by done.
  case_bool_decide as Hb; [apply evictOldest_lookup|done].
Qed.

Lemma Delete_lookup (c : cache.Cache CacheValue) key k item :
  cache.items (cache.Delete key c) !! k = Some item → cache.items c !! k = Some item.
Proof.
  unfold cache.Delete. cbn. intros H. apply lookup_delete_Some in H as [_ H]. exact H.
Qed.

Lemma FindByID_Ok id db r : FindByID id db = Ok r → r ∈ routes db ∧ ID r = id.
Proof.
  unfold FindByID. destruct (up db); [|done]. destruct (int4 id); [|done].
  destruct (List.find _ _) as [r'|] eqn:E; [|done]. intros [= ->].
  apply List.find_some in E as [Hin Hb]. apply bool_decide_eq_true in Hb.
  split; [by apply list_elem_of_In|done].
Qed.

Lemma Create_seq now route db :
  (∀ r, r ∈ routes db → ID r < routes_id_seq db) →
  ∀ r, r ∈ routes (database.Create now route db).2 →
       ID r < routes_id_seq (database.Create now route db).2.
Proof.
  intros Hb. unfold database.Create.
  destruct (up db); [|done]. destruct (route_params_ok db route); [|done].
  destruct (int4 (routes_id_seq db)); [|done].
  destruct (varchar db 255 _); [|cbn; intros r Hr; specialize (Hb r Hr); lia].
  destruct (varchar db 500 _); [|cbn; intros r Hr; specialize (Hb r Hr); lia].
  destruct (varchar db 10 _); [|cbn; intros r Hr; specialize (Hb r Hr); lia].
  destruct (forallb _ _); cbn; intros r Hr.
  - apply elem_of_app in Hr as [Hr|Hr].
    + specialize (Hb r Hr). lia.
    + apply list_elem_of_singleton in Hr as ->. cbn. lia.
  - specialize (Hb r Hr). lia.
Qed.

Lemma Create_seq_le now route db :
  routes_id_seq db <= routes_id_seq (database.Create now route db).2.
Proof.
  unfold database.Create.
  destruct (up db); [|done]. destruct (route_params_ok db route); [|done].
  destruct (int4 (routes_id_seq db)); [|done].
  destruct (varchar db 255 _); [|cbn; lia].
  destruct (varchar db 500 _); [|cbn; lia].
  destruct (varchar db 10 _); [|cbn; lia].
  destruct (forallb _ _); cbn; lia.
Qed.

Lemma Update_seq now route db :
  (∀ r, r ∈ routes db → ID r < routes_id_seq db) →
  routes_id_seq (database.Update now route db).2 = routes_id_seq db
  ∧ ∀ r, r ∈ routes (database.Update now route db).2 → ID r < routes_id_seq db.
Proof.
  intros Hb. unfold database.Update.
  destruct (up db); [|done]. destruct (_ && _); [|done].
  destruct (List.find _ _) as [old|] eqn:E; [|done].
  destruct (varchar db 255 _); [|done]. destruct (varchar db 500 _); [|done].
  destruct (varchar db 10 _); [|done]. destruct (path_free _ _ _); [|done].
  cbn. split; [done|]. intros r Hr. apply list_elem_of_In, List.in_map_iff in Hr.
  destruct Hr as (r0 & Heq & Hin). apply list_elem_of_In in Hin.
  case_bool_decide as Hid; subst r.
  - cbn. rewrite <- Hid. by apply Hb.
  - by apply Hb.
Qed.

Lemma Delete_seq id db :
  (∀ r, r ∈ routes db → ID r < routes_id_seq db) →
  routes_id_seq (database.Delete id db).2 = routes_id_seq db
  ∧ ∀ r, r ∈ routes (database.Delete id db).2 → ID r < routes_id_seq db.
Proof.
  intros Hb. unfold database.Delete.
  destruct (up db); [|done]. destruct (int4 id); [|done].
  cbn. split; [done|]. intros r Hr.
  apply list_elem_of_In, List.filter_In in Hr as [Hin _].
  apply Hb. by apply list_elem_of_In.
Qed.

(** Every request keeps the ids in use below the sequence. *)
Lemma serve_ids_below_seq now order (w : response.Writer) req h :
  ids_below_seq h → ids_below_seq (serve now order w req h).2.
Proof.
  intros [Hrows Hkeys]. destruct req as [idStr|body|idStr body|idStr]; cbn [serve].
  - unfold Get. destruct (strconv.Atoi idStr) as [id|] eqn:Hid; [|done].
    destruct (cache.Get _ _ _); [done|].
    destruct (FindByID id (repo h)) as [route|e] eqn:Hfind; [|done].
    cbn [snd]. split; [done|]. cbn [cache repo]. intros s item id' Hs Hid'.
    destruct (decide (("route:" ++ s)%string = ("route:" ++ idStr)%string)) as [Heq|Hne].
    + apply route_key_inj in Heq as ->.
      apply FindByID_Ok in Hfind as [Hin Hr]. specialize (Hrows route Hin).
      congruence.
    + apply SetWithTTL_lookup in Hs; [|done]. by eapply Hkeys.
  - unfold Create. destruct body as [b|]; [|done]. destruct (_ || _); [done|].
    pose proof (Create_seq now b (repo h) Hrows) as Hr.
    pose proof (Create_seq_le now b (repo h)) as Hle.
    destruct (database.Create now b (repo h)) as [[route'|e] db]; cbn [snd fst] in *.
    + split; [done|]. cbn [cache repo]. intros s item id Hs Hid.
      apply Delete_lookup in Hs. specialize (Hkeys s item id Hs Hid). lia.
    + split; [done|]. cbn [cache repo]. intros s item id Hs Hid.
      specialize (Hkeys s item id Hs Hid). lia.
  - unfold Update. destruct (strconv.Atoi idStr) as [id|]; [|done].
    destruct body as [b|]; [|done]. destruct (_ || _); [done|].
    pose proof (Update_seq now (with_id id b) (repo h) Hrows) as [Hseq Hr].
    destruct (database.Update now _ (repo h)) as [[route'|e] db]; cbn [snd fst] in *.
    + split; [cbn [repo]; by rewrite Hseq|]. cbn [cache repo]. intros s item id' Hs Hid'.
      do 2 apply Delete_lookup in Hs. rewrite Hseq. by eapply Hkeys.
    + split; [cbn [repo]; by rewrite Hseq|]. cbn [cache repo]. intros s item id' Hs Hid'.
      rewrite Hseq. by eapply Hkeys.
  - unfold Delete. destruct (strconv.Atoi idStr) as [id|]; [|done].
    pose proof (Delete_seq id (repo h) Hrows) as [Hseq Hr].
    destruct (database.Delete id (repo h)) as [[u|e] db]; cbn [snd fst] in *.
    + split; [cbn [repo]; by rewrite Hseq|]. cbn [cache repo]. intros s item id' Hs Hid'.
      do 2 apply Delete_lookup in Hs. rewrite Hseq. by eapply Hkeys.
    + split; [cbn [repo]; by rewrite Hseq|]. cbn [cache repo]. intros s item id' Hs Hid'.
      rewrite Hseq. by eapply Hkeys.
Qed.

(** A create that succeeds hands out the id the sequence stood at, so
    no key [route:<s>] of the cache denotes the new route: there is no
    per-id entry for [Create] to remove. *)
Lemma Create_no_key_of_new_route now (w : response.Writer) (b route' : Route) db' h s :
  ids_below_seq h →
  database.Create now b (repo h) = (Ok route', db') →
  strconv.Atoi s = Some (ID route') →
  cache.items (cache (Create now w (Some b) h).2) !! ("route:" ++ s)%string = None.
Proof.
  intros [_ Hkeys] Hc Hs.
  assert (ID route' = routes_id_seq (repo h)) as Hid.
  { revert Hc. unfold database.Create.
    destruct (up (repo h)); [|done]. destruct (route_params_ok _ b); [|done].
    destruct (int4 _); [|done].
    destruct (varchar _ 255 _); [|done]. destruct (varchar _ 500 _); [|done].
    destruct (varchar _ 10 _); [|done]. destruct (forallb _ _); [|done].
    by intros [= <- _]. }
  destruct (cache.items (cache (Create now w (Some b) h).2) !! ("route:" ++ s)%string)
    as [item|] eqn:E; [|done].
  exfalso. revert E. unfold Create. destruct (_ || _); cbn [snd].
  - intros E. specialize (Hkeys s item _ E Hs). lia.
  - rewrite Hc. cbn [snd cache]. intros E. apply Delete_lookup in E.
    specialize (Hkeys s item _ E Hs). lia.
Qed.

End RouteHandler.

(** * Properties of the forwarder *)

Section Forwarder.
Import http proxy.

Lemma canonical_For : CanonicalMIMEHeaderKey "X-Forwarded-For" = "X-Forwarded-For"%string.
Proof. vm_compute. reflexivity. Qed.

Lemma canonical_Proto : CanonicalMIMEHeaderKey "X-Forwarded-Proto" = "X-Forwarded-Proto"%string.
Proof. vm_compute. reflexivity. Qed.

Lemma canonical_Host : CanonicalMIMEHeaderKey "X-Forwarded-Host" = "X-Forwarded-Host"%string.
Proof. vm_compute. reflexivity. Qed.

(** The three fields are set last, so they hold whatever the inbound
    header and the propagator put there. *)
Lemma forwarded_header_fields (p : TextMapPropagator) (r : Request) :
  forwarded_header p r !! "X-Forwarded-For"%string = Some [RemoteAddr r]
  ∧ forwarded_header p r !! "X-Forwarded-Proto"%string
    = Some [if TLS r then "https"%string else "http"%string]
  ∧ forwarded_header p r !! "X-Forwarded-Host"%string = Some [Host r].
Proof.
  unfold forwarded_header, Set_.
  rewrite canonical_For, canonical_Proto, canonical_Host.
  destruct (TLS r); repeat split;
    repeat (rewrite lookup_insert_eq || (rewrite lookup_insert_ne by done)); done.
Qed.

(** A field that is none of the three comes out as the propagator left
    it. *)
Lemma forwarded_header_other (p : TextMapPropagator) (r : Request) (k : string) :
  k ≠ "X-Forwarded-For"%string → k ≠ "X-Forwarded-Proto"%string →
  k ≠ "X-Forwarded-Host"%string →
  forwarded_header p r !! k = Inject p (ReqHeader r) !! k.
Proof.
  intros H1 H2 H3. unfold forwarded_header, Set_.
  rewrite canonical_For, canonical_Proto, canonical_Host.
  destruct (TLS r); repeat (rewrite lookup_insert_ne by done); done.
Qed.

(** C8.  [Forward] hands [client.Do] one request, the same whatever
    the transport does with it, and in that request the field
    [X-Forwarded-For] is the inbound remote address, [X-Forwarded-Proto]
    is ["https"] exactly when the inbound connection used TLS and
    ["http"] otherwise, [X-Forwarded-Host] is the inbound host, whatever
    the inbound header held for them, and every other field is as in the
    inbound header.  What [Forward] returns is what [client.Do] makes of
    that request. *)
Theorem Forward_sets_forwarded_headers (targetURL : string) (r : Request) :
  ∃ out : Outbound,
    (∀ net : Transport,
       Forward net targetURL r
       = if NewRequest_ok net (Method r) targetURL
         then match Do net out with
              | Some resp => Ok resp
              | None => Err ErrForward
              end
         else Err ErrCreateRequest)
    ∧ OutMethod out = Method r ∧ OutURL out = targetURL ∧ OutBody out = Body r
    ∧ OutHeader out !! "X-Forwarded-For"%string = Some [RemoteAddr r]
    ∧ (OutHeader out !! "X-Forwarded-Proto"%string = Some ["https"%string] ↔ TLS r = true)
    ∧ (OutHeader out !! "X-Forwarded-Proto"%string = Some ["http"%string] ↔ TLS r = false)
    ∧ OutHeader out !! "X-Forwarded-Host"%string = Some [Host r]
    ∧ ∀ k, k ≠ "X-Forwarded-For"%string → k ≠ "X-Forwarded-Proto"%string →
           k ≠ "X-Forwarded-Host"%string →
           OutHeader out !! k = ReqHeader r !! k.
Proof.
  exists (outbound targetURL r). split; [done|].
  cbn [outbound OutMethod OutURL OutBody OutHeader].
  destruct (forwarded_header_fields GetTextMapPropagator r) as (HF & HP & HH).
  split; [done|]. split; [done|]. split; [done|].
  split; [exact HF|]. split; [|split; [|split; [exact HH|]]].
  - rewrite HP. destruct (TLS r); split; done.
  - rewrite HP. destruct (TLS r); split; done.
  - intros k H1 H2 H3. by rewrite forwarded_header_other.
Qed.

(** A backend that answers with the header of the request it is sent:
    the reply [Forward] returns shows the three fields, also when the
    inbound request brought its own. *)
Lemma Forward_echo_example :
  let r := {| Method := "GET"; URLPath := "/api/users";
              ReqHeader := {[ "X-Forwarded-For"%string := ["6.6.6.6"%string];
                              "Accept"%string := ["*/*"%string] ]};
              Body := ""; RemoteAddr := "10.0.0.1:4242"; Host := "gw.example";
              TLS := true |} in
  let echo := {| NewRequest_ok := fun _ _ => true;
                 Do := fun out => Some {| RespStatus := 200; RespHeader := OutHeader out;
                                          RespBody := ""; BodyErr := false |} |} in
  match Forward echo "http://b/u" r with
  | Ok resp =>
      RespHeader resp !! "X-Forwarded-For"%string = Some ["10.0.0.1:4242"%string]
      ∧ RespHeader resp !! "X-Forwarded-Proto"%string = Some ["https"%string]
      ∧ RespHeader resp !! "X-Forwarded-Host"%string = Some ["gw.example"%string]
      ∧ RespHeader resp !! "Accept"%string = Some ["*/*"%string]
  | Err _ => False
  end.
Proof. vm_compute. repeat split. Qed.

(** [Forward] reaches the backend with that request and no other. *)
Lemma Forward_uses_outbound (net : Transport) (targetURL : string) (r : Request) resp :
  Forward net targetURL r = Ok resp → Do net (outbound targetURL r) = Some resp.
Proof.
  unfold Forward. destruct (NewRequest_ok net (Method r) targetURL); [|done].
  destruct (Do net (outbound targetURL r)); [|done]. by intros [= ->].
Qed.

End Forwarder.

(** * Properties of the circuit breaker *)

Section CircuitBreaker.
Import circuitbreaker.
Context {W E A : Type}.

Lemma ReadyToTrip_true (c : gobreaker.Counts) :
  ReadyToTrip c = true ↔
  3 <= gobreaker.Requests c
  ∧ (6 # 10 <= inject_Z (gobreaker.TotalFailures c) / inject_Z (gobreaker.Requests c))%Q.
Proof.
  unfold ReadyToTrip. rewrite andb_true_iff, bool_decide_eq_true, Qle_bool_iff. done.
Qed.

Lemma ReadyToTrip_zero : ReadyToTrip gobreaker.zero = false.
Proof. reflexivity. Qed.

Lemma setState_ok st now b : breaker_ok b → breaker_ok (gobreaker.setState st now b).
Proof.
  intros (H1 & H2 & H3 & H4 & H5). unfold breaker_ok, gobreaker.setState. cbn.
  repeat split; try done.
Qed.

Lemma currentState_ok now b : breaker_ok b → breaker_ok (gobreaker.currentState now b).
Proof.
  intros H. unfold gobreaker.currentState.
  destruct (gobreaker.state b); try done;
    destruct (Before _ _); try done; by apply setState_ok.
Qed.

Lemma afterRequest_ok now success b : breaker_ok b → breaker_ok (gobreaker.afterRequest now success b).
Proof.
  intros H. pose proof H as (H1 & H2 & H3 & H4 & H5). unfold gobreaker.afterRequest.
  destruct (gobreaker.state b) eqn:Es.
  - rewrite H1.
    destruct (ReadyToTrip (gobreaker.record success (gobreaker.counts b))) eqn:Er;
      [by apply setState_ok|].
    unfold breaker_ok, gobreaker.set_counts. cbn. repeat split; done.
  - destruct success.
    + case_bool_decide; [by apply setState_ok|].
      unfold breaker_ok, gobreaker.set_counts. cbn. rewrite Es. repeat split; done.
    + by apply setState_ok.
  - done.
Qed.

Lemma gobreaker_Execute_ok now (req : W → result E A * W) b w :
  breaker_ok b → breaker_ok (gobreaker.Execute now req b w).1.2.
Proof.
  intros H. apply (currentState_ok now) in H. unfold gobreaker.Execute.
  destruct (gobreaker.state (gobreaker.currentState now b)) eqn:Es.
  - destruct (req w) as [r w']. cbn. by apply afterRequest_ok.
  - destruct (req w) as [r w']. cbn. by apply afterRequest_ok.
  - done.
Qed.

Lemma GetBreaker_ok now target cb :
  registry_ok cb →
  breaker_ok (GetBreaker now target cb).1 ∧ registry_ok (GetBreaker now target cb).2
  ∧ breakers (GetBreaker now target cb).2 !! target = Some (GetBreaker now target cb).1.
Proof.
  intros [Hs Hb]. unfold GetBreaker.
  destruct (breakers cb !! target) as [b|] eqn:Eb; cbn.
  - split; [by eapply Hb|]. done.
  - assert (breaker_ok (gobreaker.NewCircuitBreaker
              {| gobreaker.Name := target;
                 gobreaker.MaxRequests := gobreaker.MaxRequests (settings cb);
                 gobreaker.Interval := gobreaker.Interval (settings cb);
                 gobreaker.Timeout := gobreaker.Timeout (settings cb);
                 gobreaker.ReadyToTrip := gobreaker.ReadyToTrip (settings cb) |} now)) as Hn.
    { rewrite Hs. unfold breaker_ok. cbn. repeat split; done. }
    split; [exact Hn|]. split; [|by rewrite lookup_insert_eq].
    split; [done|]. intros t b. cbn. rewrite lookup_insert.
    case_decide; [by intros [= <-] | apply Hb].
Qed.

Lemma Execute_ok now target (fn : W → result E A * W) cb w :
  registry_ok cb → registry_ok (Execute now target fn cb w).1.2.
Proof.
  intros H. destruct (GetBreaker_ok now target cb H) as (Hb & [Hs Hr] & _).
  unfold Execute. destruct (GetBreaker now target cb) as [b cb1]. cbn [fst snd] in *.
  pose proof (gobreaker_Execute_ok now fn b w Hb) as Hb'.
  destruct (gobreaker.Execute now fn b w) as [[r b'] w']. cbn [fst snd] in *.
  assert (registry_ok {| breakers := <[target:=b']> (breakers cb1); settings := settings cb1 |}).
  { split; [done|]. intros t b0. cbn. rewrite lookup_insert.
    case_decide; [by intros [= <-] | apply Hr]. }
  by destruct r.
Qed.

Lemma reachable_ok cb : reachable (W:=W) (E:=E) (A:=A) cb → registry_ok cb.
Proof.
  induction 1 as [|now target fn cb w _ IH].
  - split; [done|]. intros t b. cbn. by rewrite lookup_empty.
  - by apply Execute_ok.
Qed.

(** C5, on the breaker of section 4.4 of the design with the gateway's
    settings.  For every registry a gateway can reach and every call:
    - if the call finds the breaker of its target Closed and, counted
      with the call's own outcome, the interval has at least 3 requests
      and a failure ratio of at least 0.6, the breaker is Open when the
      call returns, for 60 seconds from now;
    - if the call finds the breaker Open, it returns the open-breaker
      error wrapped with the target, and the world the protected
      function acts on is untouched, whatever the function is. *)
Theorem Execute_trips_and_rejects
    (now : Z) (target : string) (fn : W → result E A * W) (cb : CircuitBreaker) (w : W) :
  reachable (W:=W) (E:=E) (A:=A) cb →
  (gobreaker.state (current now target cb) = gobreaker.StateClosed →
   let c := gobreaker.record (gobreaker.is_ok (fn w).1)
              (gobreaker.counts (current now target cb)) in
   3 <= gobreaker.Requests c →
   (6 # 10 <= inject_Z (gobreaker.TotalFailures c) / inject_Z (gobreaker.Requests c))%Q →
   GetState now target (Execute now target fn cb w).1.2 = gobreaker.StateOpen
   ∧ ∃ b, breakers (Execute now target fn cb w).1.2 !! target = Some b
          ∧ gobreaker.state b = gobreaker.StateOpen
          ∧ gobreaker.expiry b = now + Second * 60)
  ∧ (gobreaker.state (current now target cb) = gobreaker.StateOpen →
     (Execute now target fn cb w).1.1 = Err (Wrapped target (inl gobreaker.ErrOpenState))
     ∧ (Execute now target fn cb w).2 = w
     ∧ GetState now target (Execute now target fn cb w).1.2 = gobreaker.StateOpen).
Proof.
  intros Hreach. apply reachable_ok in Hreach.
  destruct (GetBreaker_ok now target cb Hreach) as (Hb & _ & _).
  unfold current, Execute, GetState.
  destruct (GetBreaker now target cb) as [b cb1]. cbn [fst snd] in *.
  apply (currentState_ok now) in Hb.
  unfold gobreaker.Execute.
  set (b1 := gobreaker.currentState now b) in *.
  split.
  - intros Es Hn Hq. rewrite Es.
    destruct (fn w) as [r w'] eqn:Ef. cbn [fst snd] in *.
    set (c := gobreaker.record (gobreaker.is_ok r) (gobreaker.counts b1)) in *.
    assert (gobreaker.afterRequest now (gobreaker.is_ok r) b1
            = gobreaker.setState gobreaker.StateOpen now b1) as Ea.
    { unfold gobreaker.afterRequest. rewrite Es.
      destruct Hb as (-> & _). fold c.
      by rewrite (proj2 (ReadyToTrip_true c) (conj Hn Hq)). }
    rewrite Ea.
    assert (gobreaker.expiry (gobreaker.setState gobreaker.StateOpen now b1)
            = now + Second * 60) as Ee.
    { cbn. destruct Hb as (_ & -> & _). done. }
    destruct r; cbn [fst snd breakers]; rewrite lookup_insert_eq.
    all: split; [|eexists; split; [reflexivity|]; split; [reflexivity|exact Ee]].
    all: unfold gobreaker.currentState; cbn [gobreaker.state gobreaker.setState].
    all: rewrite Ee; unfold Before; rewrite bool_decide_eq_false_2; [done|].
    all: unfold Second, Millisecond; lia.
  - intros Es. rewrite Es. cbn [fst snd breakers]. rewrite lookup_insert_eq.
    split; [done|]. split; [done|].
    assert (gobreaker.currentState now b1 = b1) as ->; [|done].
    unfold b1. unfold gobreaker.currentState at 1. fold b1. rewrite Es.
    unfold b1, gobreaker.currentState in Es |- *.
    destruct (gobreaker.state b) eqn:Eb.
    + destruct (Before (gobreaker.expiry b) now); cbn in Es; [done|]. congruence.
    + congruence.
    + destruct (Before (gobreaker.expiry b) now) eqn:EB; cbn in Es; [done|].
      by rewrite EB.
Qed.

End CircuitBreaker.

Lemma Execute_trips_and_rejects_witness :
  let target := "http://b/u"%string in
  let two := scenario.after_failures 2 in
  let three := scenario.after_failures 3 in
  (* the third failure in three seconds opens the breaker *)
  circuitbreaker.GetState (2 * Second) target three.1 = gobreaker.StateOpen
  ∧ three.2 = 3%nat
  (* the fourth call is refused and the backend is not hit *)
  ∧ (circuitbreaker.Execute (3 * Second) target circuitbreaker.failing three.1 three.2).1.1
    = Err (circuitbreaker.Wrapped target (inl gobreaker.ErrOpenState))
  ∧ (circuitbreaker.Execute (3 * Second) target circuitbreaker.failing three.1 three.2).2 = 3%nat.
Proof.
  intros target two three.
  assert (∀ n, circuitbreaker.reachable (W:=nat) (E:=unit) (A:=unit)
                 (scenario.after_failures n).1) as Hreach.
  { induction n as [|n IH]; [constructor|]. cbn [scenario.after_failures fst snd].
    by constructor. }
  pose proof (Execute_trips_and_rejects (2 * Second) target circuitbreaker.failing
                two.1 two.2 (Hreach 2%nat)) as [Htrip _].
  pose proof (Execute_trips_and_rejects (3 * Second) target circuitbreaker.failing
                three.1 three.2 (Hreach 3%nat)) as [_ Hopen].
  assert (gobreaker.state (circuitbreaker.current (2 * Second) target two.1)
          = gobreaker.StateClosed) as H1 by (vm_compute; reflexivity).
  assert (gobreaker.state (circuitbreaker.current (3 * Second) target three.1)
          = gobreaker.StateOpen) as H2 by (vm_compute; reflexivity).
  specialize (Htrip H1). cbv zeta in Htrip.
  destruct Htrip as [Hstate _].
  - vm_compute. congruence.
  - vm_compute. congruence.
  - destruct (Hopen H2) as (He & Hw & _).
    split; [exact Hstate|]. split; [vm_compute; reflexivity|].
    split; [exact He|]. rewrite Hw. vm_compute. reflexivity.
Defined.

(** * Properties of the engine's shutdown *)

Section Engine.
Import core.

Lemma started_accounted : accounted started.
Proof. split; [cbn; lia | done]. Qed.

Lemma exited_receive i e :
  is_running (worker i e) = true → exited (receive i e) = S (exited e).
Proof.
  unfold exited, receive, worker. cbn.
  destruct i, (statsCollector e), (healthChecker e), (circuitBreakerMonitor e); cbn; done.
Qed.

Lemma exited_lt i e : is_running (worker i e) = true → (exited e < 3)%nat.
Proof.
  unfold exited, worker. cbn.
  destruct i, (statsCollector e), (healthChecker e), (circuitBreakerMonitor e); cbn; done || lia.
Qed.

Lemma step_accounted a e e' : step a e = Some e' → accounted e → accounted e'.
Proof.
  unfold accounted, taken. intros Hstep [Hle Hst]. destruct a; cbn in Hstep.
  - injection Hstep as <-. cbn. unfold exited in *. cbn in *.
    split; [|done]. case_bool_decide; lia.
  - destruct (main e) eqn:Em; try done. destruct (shutdown e) eqn:Es; [done|].
    injection Hstep as <-. cbn. unfold exited in *. cbn in *. split; [lia|done].
  - destruct (main e) eqn:Em; try done.
    injection Hstep as <-. cbn. unfold exited in *. cbn in *. split; [lia|done].
  - destruct (main e) eqn:Em; try done.
    injection Hstep as <-. cbn. unfold exited in *. cbn in *. split; [lia|done].
  - destruct (main e) eqn:Em; try done.
    destruct (is_running (server e)), (is_running (wsHub e)); try done.
    destruct (is_running (statsCollector e)) eqn:E1; [done|].
    destruct (is_running (healthChecker e)) eqn:E2; [done|].
    destruct (is_running (circuitBreakerMonitor e)) eqn:E3; [done|].
    injection Hstep as <-. cbn. unfold exited in *. cbn in *.
    rewrite E1, E2, E3 in *. cbn in *. split; [lia|done].
  - destruct (is_running (worker i e)) eqn:Er; [|done].
    destruct i; cbn in Hstep.
    + injection Hstep as Heq. subst e'. split; assumption.
    + destruct (shutdown e) eqn:Es.
      * injection Hstep as Heq. subst e'. rewrite Es. split; assumption.
      * injection Hstep as <-. rewrite (exited_receive Health e Er).
        change (shutdown (receive Health e)) with (Nat.pred (shutdown e)).
        change (main (receive Health e)) with (main e).
        change (signals (receive Health e)) with (signals e).
        rewrite Es. cbn [Nat.pred]. split; [lia|].
        intros Hm. specialize (Hst Hm). pose proof (exited_lt Health e Er). lia.
    + injection Hstep as Heq. subst e'. split; assumption.
  - destruct (is_running (worker i e)) eqn:Er; [|done].
    destruct (shutdown e) eqn:Es; [done|].
    injection Hstep as <-. rewrite (exited_receive i e Er).
    change (shutdown (receive i e)) with (Nat.pred (shutdown e)).
    change (main (receive i e)) with (main e).
    change (signals (receive i e)) with (signals e).
    rewrite Es. cbn [Nat.pred]. split; [lia|].
    intros Hm. specialize (Hst Hm). pose proof (exited_lt i e Er). lia.
Qed.

Lemma run_accounted : ∀ acts e e', run acts e = Some e' → accounted e → accounted e'.
Proof.
  induction acts as [|a acts IH]; intros e e' Hrun Hacc; cbn in Hrun.
  - by injection Hrun as <-.
  - destruct (step a e) as [e1|] eqn:Es; [|done].
    eapply IH; [exact Hrun|]. by eapply step_accounted.
Qed.

(** C9 on the code, for one shutdown signal.  Whatever the scheduler
    does after the engine has started, once exactly one signal has been
    sent: at most one background worker has returned; if [Start] is the
    receiver, none has; and [Stop] never gets past [e.wg.Wait()]. *)
Theorem one_signal_stops_one_receiver (acts : list Action) (e : EngineV2) :
  run acts started = Some e →
  signals e = 1%nat →
  (exited e ≤ 1)%nat
  ∧ (main e ≠ AwaitSignal → exited e = 0%nat)
  ∧ main e ≠ Stopped.
Proof.
  intros Hrun Hsig.
  destruct (run_accounted acts started e Hrun started_accounted) as [Hle Hst].
  unfold taken in Hle. rewrite Hsig in Hle.
  split; [lia|]. split.
  - intros Hm. destruct (main e); [done| lia..].
  - intros Hm. specialize (Hst Hm). lia.
Qed.

Lemma one_signal_stops_one_receiver_witness :
  let acts := [Tick Stats; Signal; MainReceive; StopServer; Tick Health; Tick Monitor] in
  ∃ e, run acts started = Some e
       ∧ signals e = 1%nat
       ∧ main e = AwaitWorkers
       ∧ worker Stats e = Running ∧ worker Health e = Running ∧ worker Monitor e = Running
       ∧ (∀ a, a ≠ Signal → step a e = None ∨ step a e = Some e)
       ∧ (exited e ≤ 1)%nat
       ∧ (main e ≠ AwaitSignal → exited e = 0%nat)
       ∧ main e ≠ Stopped.
Proof.
  intros acts.
  assert (is_Some (run acts started)) as [e He] by (vm_compute; eexists; reflexivity).
  exists e.
  assert (e = {| signals := 1; shutdown := 0; main := AwaitWorkers;
                 server := Exited; wsHub := Exited;
                 statsCollector := Running; healthChecker := Running;
                 circuitBreakerMonitor := Running |}) as Ee
    by (vm_compute in He; congruence).
  assert (signals e = 1%nat) as Hs by (rewrite Ee; reflexivity).
  split; [exact He|]. split; [exact Hs|].
  split; [rewrite Ee; reflexivity|].
  split; [rewrite Ee; reflexivity|].
  split; [rewrite Ee; reflexivity|].
  split; [rewrite Ee; reflexivity|].
  split.
  - intros a Ha. rewrite Ee. destruct a as [| | | | |i|i]; try destruct i; cbn; auto.
    congruence.
  - exact (one_signal_stops_one_receiver acts e He Hs).
Defined.

End Engine.
